(** * The game import dialog of Lutris: [lutris/gui/dialogs/game_import.py]

    A shallow embedding of [ImportGameDialog] and the properties of its
    import workflow.

    The dialog is stateful Python: it calls collaborators that may raise,
    catches their exceptions per file, mutates a copy of an installer
    dict and writes to the game database.  The embedding therefore runs in
    a small state-and-exception monad [M] over a [World] that holds

    - the dialog's own attributes ([self.platform], the check button),
    - the Python object store in which the installer dicts live (so that
      aliasing between [DEFAULT_INSTALLERS] and the dict handed to
      [write_game_config] is observable),
    - the rows inserted in the game database, and
    - the trace of every externally visible call, in the order made.

    The collaborators that are imported from other modules
    ([get_path_cache], [search_tosec_by_md5], [guess_platform], ...) are the
    fields of the record [Externals]; every theorem quantifies over them. *)

From Stdlib Require Import ZArith Ascii String Lia.
From stdpp Require Import base option list gmap strings fin_maps.

Local Open Scope string_scope.
Local Open Scope list_scope.
Local Open Scope Z_scope.

(** ** Data *)

(** Python exceptions.  [RuntimeError] is what the dialog raises itself;
    [OtherError] stands for whatever a collaborator raises ([OSError],
    [BadZipFile], [HTTPError], ...).  [str] is the text shown to the user. *)
Inductive Exn : Type :=
| RuntimeError (msg : string)
| OtherError (msg : string).

Definition str (ex : Exn) : string :=
  match ex with
  | RuntimeError msg => msg
  | OtherError msg => msg
  end.

Inductive Result (A : Type) : Type :=
| Ok (a : A)
| Raise (ex : Exn).
Arguments Ok {A} a.
Arguments Raise {A} ex.

(** [Game(game_id)]: the object the dialog emits signals on. *)
Record Game : Type := mkGame {
  game_id : Z;
  game_name : string;
}.

(** One entry of a rom set's ["roms"] list; only ["md5"] is read. *)
Record Rom : Type := mkRom {
  md5 : string;
}.

(** A rom set is a dict.  The dialog tests the presence of the keys
    ["game"] and ["error"], so both are optional here; ["name"],
    ["category"]["name"] and ["roms"] are read without a test. *)
Record RomSet : Type := mkRomSet {
  rs_name : string;
  rs_category : string;
  rs_game : option Game;
  rs_error : option Exn;
  rs_roms : list Rom;
}.

(** [{"name": game.name, "game": game, "roms": []}] *)
Definition installed_rom_set (game : Game) : RomSet :=
  {| rs_name := game_name game; rs_category := ""; rs_game := Some game;
     rs_error := None; rs_roms := [] |}.

(** [{"error": error, "roms": []}] *)
Definition error_rom_set (error : Exn) : RomSet :=
  {| rs_name := ""; rs_category := ""; rs_game := None;
     rs_error := Some error; rs_roms := [] |}.

(** The keyword arguments of [lutris.database.games.add_game]. *)
Record GameRecord : Type := mkGameRecord {
  gr_name : string;
  gr_runner : string;
  gr_slug : string;
  gr_directory : string;
  gr_installed : Z;
  gr_installer_slug : string;
  gr_configpath : string;
}.

(** Python objects that are mutated or shared.  An installer is the dict
    [{"runner": <str>, "game": <dict>}]: the outer dict holds a reference
    to the inner one, which is what makes a shallow copy different from
    [deepcopy].  The values of the game section are strings; the only test
    made on them is equality with ["rom"]. *)
Abbreviation loc := nat.

Inductive Obj : Type :=
| OInstaller (runner : string) (game : loc)
| OSection (items : gmap string string).

(** Everything the dialog does that the rest of the application, the
    user or the network can observe. *)
Inductive Event : Type :=
| EvProgress (filepath message : string)
| EvMd5InZip (filename : string)
| EvMd5Hash (filename : string)
| EvSearchTosec (md5sum : string)
| EvHideProgress (filename : string)
| EvChecksumLabel (filename checksum : string)
| EvDescriptionLabel (filename name : string)
| EvCategoryLabel (filename category : string)
| EvInstallerLookup (platform : option string)
| EvLogInfo (message : string)
| EvLogError (message : string)
| EvWriteConfig (slug runner : string) (game : gmap string string)
| EvAddGame (row : GameRecord)
| EvDownloadMedia (slug : string)
| EvEmit (game : Game) (signal : string)
| EvDestroy
| EvErrorLabel (filename message : string).

(** Equality of all of these is decidable. *)
Global Instance Exn_eq_dec : EqDecision Exn.
Proof. solve_decision. Defined.

Global Instance Game_eq_dec : EqDecision Game.
Proof. solve_decision. Defined.

Global Instance Rom_eq_dec : EqDecision Rom.
Proof. solve_decision. Defined.

Global Instance RomSet_eq_dec : EqDecision RomSet.
Proof. solve_decision. Defined.

Global Instance GameRecord_eq_dec : EqDecision GameRecord.
Proof. solve_decision. Defined.

Global Instance Obj_eq_dec : EqDecision Obj.
Proof. solve_decision. Defined.

Global Instance Event_eq_dec : EqDecision Event.
Proof. solve_decision. Defined.

Record World : Type := mkWorld {
  platform : option string;
  auto_launch_button : bool;
  heap : list Obj;
  games_db : list GameRecord;
  trace : list Event;
}.

(** The imported collaborators.  A function that can raise returns a
    [Result]. *)
Record Externals : Type := mkExternals {
  (* lutris.scanners.lutris.get_path_cache: game id -> path, the dict
     the call returned, as its items in insertion order; a call that
     raises, before the loop and out of every try, is not modelled *)
  get_path_cache : list (Z * string);
  (* Game(game_id).name *)
  name_of_game : Z → string;
  get_md5_in_zip : string → Result string;
  get_md5_hash : string → Result string;
  (* a falsy answer (None or an empty list) is the empty list *)
  search_tosec_by_md5 : string → Result (list RomSet);
  (* a falsy answer (None or an empty string) is None *)
  guess_platform : RomSet → option string;
  clean_rom_name : string → string;
  slugify : string → string;
  (* the module-level dict: platform -> reference to its installer *)
  DEFAULT_INSTALLERS : gmap string loc;
  write_game_config : string → string → gmap string string → Result string;
  (* lutris.database.games.add_game, given the rows already there *)
  db_add_game : list GameRecord → GameRecord → Result Z;
  download_lutris_media : string → Result unit;
}.

(** ** The monad *)

Definition M (A : Type) : Type := World → Result A * World.

Global Instance M_ret : MRet M := λ A a w, (Ok a, w).

Global Instance M_bind : MBind M := λ A B f m w,
  match m w with
  | (Ok a, w') => f a w'
  | (Raise ex, w') => (Raise ex, w')
  end.

Definition raise {A} (ex : Exn) : M A := λ w, (Raise ex, w).

(** [try: body except Exception as error: handler(error)] *)
Definition try_except {A} (body : M A) (handler : Exn → M A) : M A := λ w,
  match body w with
  | (Ok a, w') => (Ok a, w')
  | (Raise ex, w') => handler ex w'
  end.

(** [try: body finally: final] *)
Definition try_finally {A} (body : M A) (final : M unit) : M A := λ w,
  match body w with
  | (r, w') =>
      match final w' with
      | (Ok _, w'') => (r, w'')
      | (Raise ex, w'') => (Raise ex, w'')
      end
  end.

(** Field updates of the world. *)
Definition log (evs : list Event) (w : World) : World :=
  {| platform := platform w; auto_launch_button := auto_launch_button w;
     heap := heap w; games_db := games_db w; trace := trace w ++ evs |}.

Definition with_heap (h : list Obj) (w : World) : World :=
  {| platform := platform w; auto_launch_button := auto_launch_button w;
     heap := h; games_db := games_db w; trace := trace w |}.

Definition with_platform (p : option string) (w : World) : World :=
  {| platform := p; auto_launch_button := auto_launch_button w;
     heap := heap w; games_db := games_db w; trace := trace w |}.

Definition with_games_db (db : list GameRecord) (w : World) : World :=
  {| platform := platform w; auto_launch_button := auto_launch_button w;
     heap := heap w; games_db := db; trace := trace w |}.

Definition emit (ev : Event) : M unit := λ w, (Ok tt, log [ev] w).

(** A call of a collaborator: its result or its exception. *)
Definition call {A} (r : Result A) : M A := λ w, (r, w).

Definition get_heap : M (list Obj) := λ w, (Ok (heap w), w).

Definition set_heap (h : list Obj) : M unit := λ w, (Ok tt, with_heap h w).

Definition get_platform : M (option string) := λ w, (Ok (platform w), w).

Definition set_platform (p : option string) : M unit := λ w,
  (Ok tt, with_platform p w).

Definition get_games_db : M (list GameRecord) := λ w, (Ok (games_db w), w).

Definition insert_row (row : GameRecord) : M unit := λ w,
  (Ok tt, with_games_db (games_db w ++ [row]) w).

(** [self.auto_launch_button.get_active()] *)
Definition get_active : M bool := λ w, (Ok (auto_launch_button w), w).

(** ** Strings and dicts *)

Definition lower_ascii (c : ascii) : ascii :=
  let n := nat_of_ascii c in
  if ((65 <=? n) && (n <=? 90))%nat then ascii_of_nat (n + 32) else c.

(** [str.lower] on the ASCII letters, which is all [".zip"] can match. *)
Fixpoint lower (s : string) : string :=
  match s with
  | EmptyString => EmptyString
  | String c rest => String (lower_ascii c) (lower rest)
  end.

Fixpoint endswith (s suffix : string) : bool :=
  if String.eqb s suffix then true
  else match s with
       | EmptyString => false
       | String _ rest => endswith rest suffix
       end.

(** [results[filename] = result] on an [OrderedDict]: a key that is
    already there keeps its position. *)
Fixpoint od_set {V : Type} (key : string) (value : V)
    (d : list (string * V)) : list (string * V) :=
  match d with
  | [] => [(key, value)]
  | (key', value') :: rest =>
      if decide (key = key') then (key, value) :: rest
      else (key', value') :: od_set key value rest
  end.

Fixpoint od_get {V : Type} (key : string) (d : list (string * V)) : option V :=
  match d with
  | [] => None
  | (key', value') :: rest =>
      if decide (key = key') then Some value' else od_get key rest
  end.

(** ** The object store *)

Definition alloc (o : Obj) : M loc := λ w,
  (Ok (length (heap w)), with_heap (heap w ++ [o]) w).

Definition read (l : loc) : M Obj :=
  h ← get_heap;
  match h !! l with
  | Some o => mret o
  | None => raise (OtherError "dangling reference")
  end.

(** [copy.deepcopy] of an installer: the inner dict is copied too. *)
Definition deepcopy (l : loc) : M loc :=
  o ← read l;
  match o with
  | OInstaller runner game =>
      inner ← read game;
      match inner with
      | OSection items =>
          game' ← alloc (OSection items);
          alloc (OInstaller runner game')
      | OInstaller _ _ => raise (OtherError "unsupported installer shape")
      end
  | OSection items => alloc (OSection items)
  end.

(** [installer["game"]] *)
Definition getitem_game (installer : loc) : M loc :=
  o ← read installer;
  match o with
  | OInstaller _ game => mret game
  | OSection _ => raise (OtherError "'game'")
  end.

(** [installer["runner"]] *)
Definition getitem_runner (installer : loc) : M string :=
  o ← read installer;
  match o with
  | OInstaller runner _ => mret runner
  | OSection _ => raise (OtherError "'runner'")
  end.

(** [d.items()], read when the loop starts.  The loop below assigns only
    to the key it is visiting, after it has read that key's value, so
    iterating the live view yields the same pairs. *)
Definition dict_items (d : loc) : M (list (string * string)) :=
  o ← read d;
  match o with
  | OSection items => mret (map_to_list items)
  | OInstaller _ _ => raise (OtherError "not a dict of strings")
  end.

(** [d[key] = value] *)
Definition dict_setitem (d : loc) (key value : string) : M unit :=
  o ← read d;
  match o with
  | OSection items =>
      h ← get_heap;
      set_heap (<[d := OSection (<[key := value]> items)]> h)
  | OInstaller _ _ => raise (OtherError "not a dict of strings")
  end.

(** ** ImportGameDialog *)

Section ImportGameDialog.

Context (ext : Externals).

(** [Game(game_id)] *)
Definition load_game (id : Z) : Game :=
  {| game_id := id; game_name := name_of_game ext id |}.

(** [len(files) == 1], the initial state of the "Launch game" button. *)
Definition auto_launch_default (files : list string) : bool :=
  (length files =? 1)%nat.

(** [__init__]: the dialog as it is shown, over the ambient object store
    and database. *)
Definition init (files : list string) (h : list Obj) (db : list GameRecord)
    : World :=
  {| platform := None; auto_launch_button := auto_launch_default files;
     heap := h; games_db := db; trace := [] |}.

Definition game_launch (game : Game) : M unit :=
  emit (EvEmit game "game-launch") ;;
  emit EvDestroy.

Definition show_progress (filepath message : string) : M unit :=
  emit (EvProgress filepath message).

(** The loop over [game_path_cache] in [search_checksums]; for the key of
    an item, [game_path_cache[game_id]] is that item's path.  [result] is
    the local variable, unbound ([None]) when the loop starts. *)
Fixpoint installed_result (items : list (Z * string)) (filename : string)
    (result : option (list RomSet)) : option (list RomSet) :=
  match items with
  | [] => result
  | (id, path) :: rest =>
      if decide (path = filename)
      then installed_result rest filename
             (Some [installed_rom_set (load_game id)])
      else installed_result rest filename result
  end.

(** The body of the loop of [search_checksums], for one file. *)
Definition search_file (game_path_cache : list (Z * string))
    (filename : string) : M (list RomSet) :=
  try_finally
    (try_except
       (show_progress filename "Looking for installed game..." ;;
        if bool_decide (filename ∈ game_path_cache.*2) then
          match installed_result game_path_cache filename None with
          | Some result => mret result
          | None => raise (OtherError "local variable 'result' referenced before assignment")
          end
        else
          show_progress filename "Calculating checksum..." ;;
          md5sum ← (if endswith (lower filename) ".zip"
                    then emit (EvMd5InZip filename) ;;
                         call (get_md5_in_zip ext filename)
                    else emit (EvMd5Hash filename) ;;
                         call (get_md5_hash ext filename));
          show_progress filename "Looking up checksum on Lutris.net..." ;;
          emit (EvSearchTosec md5sum) ;;
          result ← call (search_tosec_by_md5 ext md5sum);
          match result with
          | [] => raise (RuntimeError "This ROM could not be identified.")
          | _ :: _ => mret result
          end)
       (λ error, mret [error_rom_set error]))
    (show_progress filename "").

Fixpoint search_loop (game_path_cache : list (Z * string))
    (files : list string) (results : list (string * list RomSet))
    : M (list (string * list RomSet)) :=
  match files with
  | [] => mret results
  | filename :: rest =>
      result ← search_file game_path_cache filename;
      search_loop game_path_cache rest (od_set filename result results)
  end.

Definition search_checksums (files : list string)
    : M (list (string * list RomSet)) :=
  search_loop (get_path_cache ext) files [].

Definition display_game_info (filename : string) (rom_set : RomSet)
    (checksum : string) : M unit :=
  emit (EvChecksumLabel filename checksum) ;;
  emit (EvDescriptionLabel filename (rs_name rom_set)) ;;
  let category := rs_category rom_set in
  emit (EvCategoryLabel filename category) ;;
  set_platform (guess_platform ext rom_set) ;;
  p ← get_platform;
  match p with
  | None =>
      raise (RuntimeError ("The platform '" +:+ category +:+ "' is unknown to Lutris."))
  | Some _ => mret tt
  end.

(** The loop over [installer["game"].items()] in [add_game]. *)
Fixpoint fill_rom (installer : loc) (items : list (string * string))
    (filepath : string) : M unit :=
  match items with
  | [] => mret tt
  | (key, value) :: rest =>
      (if decide (value = "rom")
       then game ← getitem_game installer;
            dict_setitem game key filepath
       else mret tt) ;;
      fill_rom installer rest filepath
  end.

Definition platform_text (p : option string) : string :=
  match p with
  | Some p => p
  | None => "None"
  end.

Definition add_game (rom_set : RomSet) (filepath : string) : M Z :=
  let name := clean_rom_name ext (rs_name rom_set) in
  emit (EvLogInfo ("Installing " +:+ name)) ;;
  p ← get_platform;
  emit (EvInstallerLookup p) ;;
  installer ←
    match p ≫= (λ p, DEFAULT_INSTALLERS ext !! p) with
    | Some template => deepcopy template
    | None =>
        raise (RuntimeError ("Lutris does not have a default installer for the '"
                             ++ platform_text p +:+ "' platform."))
    end;
  game ← getitem_game installer;
  items ← dict_items game;
  fill_rom installer items filepath ;;
  let slug := slugify ext name in
  runner ← getitem_runner installer;
  game ← getitem_game installer;
  section ← read game;
  match section with
  | OInstaller _ _ => raise (OtherError "not a dict of strings")
  | OSection filled =>
      emit (EvWriteConfig slug runner filled) ;;
      configpath ← call (write_game_config ext slug runner filled);
      runner ← getitem_runner installer;
      let row :=
        {| gr_name := name; gr_runner := runner; gr_slug := slug;
           gr_directory := ""; gr_installed := 1;
           gr_installer_slug := slug +:+ "-" +:+ runner;
           gr_configpath := configpath |} in
      emit (EvAddGame row) ;;
      db ← get_games_db;
      id ← call (db_add_game ext db row);
      insert_row row ;;
      emit (EvDownloadMedia slug) ;;
      call (download_lutris_media ext slug) ;;
      mret id
  end.

(** The [for rom in rom_set["roms"]] loop returns in its first
    iteration, so only the head of the list is ever used. *)
Definition import_rom (rom_set : RomSet) (filename : string)
    (launch_game : bool) : M bool :=
  try_except
    (emit (EvHideProgress filename) ;;
     match rs_error rom_set with
     | Some error => raise error
     | None =>
         match rs_roms rom_set with
         | rom :: _ =>
             display_game_info filename rom_set (md5 rom) ;;
             id ← add_game rom_set filename;
             let game := load_game id in
             emit (EvEmit game "game-installed") ;;
             emit (EvEmit game "game-updated") ;;
             (if launch_game then game_launch game else mret tt) ;;
             mret true
         | [] => mret false
         end
     end)
    (λ ex,
       emit (EvLogError ("Failed to import a ROM: " +:+ str ex)) ;;
       emit (EvErrorLabel filename (str ex)) ;;
       mret false).

(** The first loop of [search_result_finished]. *)
Fixpoint find_game (result : list RomSet) : option Game :=
  match result with
  | [] => None
  | rom_set :: rest =>
      match rs_game rom_set with
      | Some game => Some game
      | None => find_game rest
      end
  end.

Fixpoint find_installed (results : list (string * list RomSet)) : option Game :=
  match results with
  | [] => None
  | (_, result) :: rest =>
      match find_game result with
      | Some game => Some game
      | None => find_installed rest
      end
  end.

(** The inner loop of the second loop: [true] when an import succeeded
    (the loop was left by [return] or [break]). *)
Fixpoint import_result (filename : string) (result : list RomSet)
    (launch_game : bool) : M bool :=
  match result with
  | [] => mret false
  | rom_set :: rest =>
      imported ← import_rom rom_set filename launch_game;
      match imported with
      | true => mret true
      | false => import_result filename rest launch_game
      end
  end.

Fixpoint import_results (results : list (string * list RomSet))
    (launch_game : bool) : M unit :=
  match results with
  | [] => mret tt
  | (filename, result) :: rest =>
      imported ← import_result filename result launch_game;
      match imported with
      | true => if launch_game then mret tt
                else import_results rest launch_game
      | false => import_results rest launch_game
      end
  end.

Definition search_result_finished (results : list (string * list RomSet))
    (error : option Exn) : M unit :=
  match error with
  | Some error => emit (EvLogError (str error))
  | None =>
      get_active ≫= λ launch_game : bool,
      match (if launch_game then find_installed results else None) with
      | Some game => game_launch game
      | None => import_results results launch_game
      end
  end.

(** [AsyncCall(self.search_checksums, self.search_result_finished)]: the
    callback receives the results, or the exception of the worker. *)
Definition start (files : list string) : M unit := λ w,
  match search_checksums files w with
  | (Ok results, w') => search_result_finished results None w'
  | (Raise error, w') => search_result_finished [] (Some error) w'
  end.

End ImportGameDialog.

(** ** The widgets of the dialog *)

(** The Gtk objects [get_file_labels_listbox] creates.  A widget is
    known by its position in the store; margins and alignments are
    presentation only and are left out. *)
Inductive Widget : Type :=
| WListBox (rows : list nat)
| WListBoxRow (child : option nat)
| WBox (children : list nat)
| WLabel (text : string) (no_show_all : bool).

(** The widget store and the five dicts of the dialog that map a file
    path to one of its labels. *)
Record Gui : Type := mkGui {
  widgets : list Widget;
  progress_labels : gmap string nat;
  checksum_labels : gmap string nat;
  description_labels : gmap string nat;
  category_labels : gmap string nat;
  error_labels : gmap string nat;
}.

(** A constructor call such as [Gtk.Label(...)]. *)
Definition new_widget (wd : Widget) (g : Gui) : nat * Gui :=
  (length (widgets g),
   {| widgets := widgets g ++ [wd];
      progress_labels := progress_labels g;
      checksum_labels := checksum_labels g;
      description_labels := description_labels g;
      category_labels := category_labels g;
      error_labels := error_labels g |}).

Definition alter_widget (f : Widget → Widget) (id : nat) (g : Gui) : Gui :=
  {| widgets := alter f id (widgets g);
     progress_labels := progress_labels g;
     checksum_labels := checksum_labels g;
     description_labels := description_labels g;
     category_labels := category_labels g;
     error_labels := error_labels g |}.

(** [vbox.pack_start(child, True, True, 5)] *)
Definition pack_start (vbox child : nat) : Gui → Gui :=
  alter_widget (λ wd, match wd with
                      | WBox children => WBox (children ++ [child])
                      | _ => wd
                      end) vbox.

(** [row.add(vbox)] *)
Definition row_add (row vbox : nat) : Gui → Gui :=
  alter_widget (λ wd, match wd with
                      | WListBoxRow _ => WListBoxRow (Some vbox)
                      | _ => wd
                      end) row.

(** [listbox.add(row)] *)
Definition listbox_add (listbox row : nat) : Gui → Gui :=
  alter_widget (λ wd, match wd with
                      | WListBox rows => WListBox (rows ++ [row])
                      | _ => wd
                      end) listbox.

(** [self.description_labels[file_path] = description_label], and the
    same for the other four dicts. *)
Definition set_description_label (file_path : string) (label : nat) (g : Gui)
    : Gui :=
  {| widgets := widgets g;
     progress_labels := progress_labels g;
     checksum_labels := checksum_labels g;
     description_labels := <[file_path := label]> (description_labels g);
     category_labels := category_labels g;
     error_labels := error_labels g |}.

Definition set_progress_label (file_path : string) (label : nat) (g : Gui)
    : Gui :=
  {| widgets := widgets g;
     progress_labels := <[file_path := label]> (progress_labels g);
     checksum_labels := checksum_labels g;
     description_labels := description_labels g;
     category_labels := category_labels g;
     error_labels := error_labels g |}.

Definition set_checksum_label (file_path : string) (label : nat) (g : Gui)
    : Gui :=
  {| widgets := widgets g;
     progress_labels := progress_labels g;
     checksum_labels := <[file_path := label]> (checksum_labels g);
     description_labels := description_labels g;
     category_labels := category_labels g;
     error_labels := error_labels g |}.

Definition set_category_label (file_path : string) (label : nat) (g : Gui)
    : Gui :=
  {| widgets := widgets g;
     progress_labels := progress_labels g;
     checksum_labels := checksum_labels g;
     description_labels := description_labels g;
     category_labels := <[file_path := label]> (category_labels g);
     error_labels := error_labels g |}.

Definition set_error_label (file_path : string) (label : nat) (g : Gui)
    : Gui :=
  {| widgets := widgets g;
     progress_labels := progress_labels g;
     checksum_labels := checksum_labels g;
     description_labels := description_labels g;
     category_labels := category_labels g;
     error_labels := <[file_path := label]> (error_labels g) |}.

(** The body of the loop of [get_file_labels_listbox]. *)
Definition add_file_row (listbox : nat) (file_path : string) (g : Gui) : Gui :=
  let '(row, g) := new_widget (WListBoxRow None) g in
  let '(vbox, g) := new_widget (WBox []) g in
  let '(description_label, g) := new_widget (WLabel "" false) g in
  let g := pack_start vbox description_label g in
  let g := set_description_label file_path description_label g in
  let '(file_path_label, g) := new_widget (WLabel file_path false) g in
  let g := pack_start vbox file_path_label g in
  let '(progress_label, g) := new_widget (WLabel "" false) g in
  let g := pack_start vbox progress_label g in
  let g := set_progress_label file_path progress_label g in
  let '(checksum_label, g) := new_widget (WLabel "" true) g in
  let g := pack_start vbox checksum_label g in
  let g := set_checksum_label file_path checksum_label g in
  let '(category_label, g) := new_widget (WLabel "" true) g in
  let g := pack_start vbox category_label g in
  let g := set_category_label file_path category_label g in
  let '(error_label, g) := new_widget (WLabel "" true) g in
  let g := pack_start vbox error_label g in
  let g := set_error_label file_path error_label g in
  let g := row_add row vbox g in
  listbox_add listbox row g.

Definition get_file_labels_listbox (files : list string) (g : Gui)
    : nat * Gui :=
  let '(listbox, g) := new_widget (WListBox []) g in
  (listbox, foldl (λ g file_path, add_file_row listbox file_path g) g files).

(** The dicts as [__init__] leaves them before it builds the list box. *)
Definition new_dialog (ws : list Widget) : Gui :=
  {| widgets := ws; progress_labels := ∅; checksum_labels := ∅;
     description_labels := ∅; category_labels := ∅; error_labels := ∅ |}.

(** ** Vocabulary of the statements *)

(** What the checksum step calls for a file, and what it gets. *)
Definition checksum_event (filename : string) : Event :=
  if endswith (lower filename) ".zip" then EvMd5InZip filename
  else EvMd5Hash filename.

Definition checksum (ext : Externals) (filename : string) : Result string :=
  if endswith (lower filename) ".zip" then get_md5_in_zip ext filename
  else get_md5_hash ext filename.

(** The trace of the search for a file that is not installed, up to and
    including the catalog lookup. *)
Definition lookup_events (filename md5sum : string) : list Event :=
  [EvProgress filename "Looking for installed game...";
   EvProgress filename "Calculating checksum...";
   checksum_event filename;
   EvProgress filename "Looking up checksum on Lutris.net...";
   EvSearchTosec md5sum;
   EvProgress filename ""].

(** What [import_rom] shows and logs when it catches [ex]. *)
Definition failure_events (filename : string) (ex : Exn) : list Event :=
  [EvLogError ("Failed to import a ROM: " +:+ str ex);
   EvErrorLabel filename (str ex)].

Definition not_identified : Exn :=
  RuntimeError "This ROM could not be identified.".

Definition unknown_platform (category : string) : Exn :=
  RuntimeError ("The platform '" +:+ category +:+ "' is unknown to Lutris.").

(** The installer a platform has in the store, read through the heap. *)
Definition template (ext : Externals) (h : list Obj) (p : string)
    : option (string * gmap string string) :=
  l ← DEFAULT_INSTALLERS ext !! p;
  match h !! l with
  | Some (OInstaller runner game) =>
      match h !! game with
      | Some (OSection items) => Some (runner, items)
      | _ => None
      end
  | _ => None
  end.

(** The row [add_game] inserts for a rom set, given the runner of the
    installer and the path the config was written to. *)
Definition new_row (ext : Externals) (rom_set : RomSet)
    (runner configpath : string) : GameRecord :=
  let name := clean_rom_name ext (rs_name rom_set) in
  let slug := slugify ext name in
  {| gr_name := name; gr_runner := runner; gr_slug := slug;
     gr_directory := ""; gr_installed := 1;
     gr_installer_slug := slug +:+ "-" +:+ runner;
     gr_configpath := configpath |}.

(** The game section of a synthesized installer. *)
Definition filled (filepath : string) (items : gmap string string)
    : gmap string string :=
  (λ value, if decide (value = "rom") then filepath else value) <$> items.

(** The game the loop over the path cache ends with: the last one, in
    the order of the cache, that was installed from [filename]. *)
Fixpoint installed_id (items : list (Z * string)) (filename : string)
    : option Z :=
  match items with
  | [] => None
  | (id, path) :: rest =>
      match installed_id rest filename with
      | Some id' => Some id'
      | None => if decide (path = filename) then Some id else None
      end
  end.

(** What the search returns for one file and what it adds to the trace;
    [search_file_outcome] below shows that [search_file] does this and
    nothing else. *)
Definition outcome (ext : Externals) (filename : string)
    : list RomSet * list Event :=
  let looking := EvProgress filename "Looking for installed game..." in
  let done := EvProgress filename "" in
  match installed_id (get_path_cache ext) filename with
  | Some id => ([installed_rom_set (load_game ext id)], [looking; done])
  | None =>
      match checksum ext filename with
      | Raise error =>
          ([error_rom_set error],
           [looking; EvProgress filename "Calculating checksum...";
            checksum_event filename; done])
      | Ok md5sum =>
          (match search_tosec_by_md5 ext md5sum with
           | Raise error => [error_rom_set error]
           | Ok [] => [error_rom_set not_identified]
           | Ok result => result
           end,
           lookup_events filename md5sum)
      end
  end.

(** The results and the trace of the whole search. *)
Definition search_results (ext : Externals) (files : list string)
    : list (string * list RomSet) :=
  foldl (λ results filename, od_set filename (outcome ext filename).1 results)
        [] files.

Definition search_trace (ext : Externals) (files : list string) : list Event :=
  concat (map (λ filename, (outcome ext filename).2) files).

(** The loop of [fill_rom], on the dict alone. *)
Definition fill_step (filepath : string) (acc : gmap string string)
    (item : string * string) : gmap string string :=
  if decide (item.2 = "rom") then <[item.1 := filepath]> acc else acc.

(** The events the import phase can produce. *)
Definition import_event (launch_game : bool) (ev : Event) : Prop :=
  match ev with
  | EvProgress _ _ | EvMd5InZip _ | EvMd5Hash _ | EvSearchTosec _ => False
  | EvEmit _ signal =>
      signal = "game-installed" ∨ signal = "game-updated" ∨
      (launch_game = true ∧ signal = "game-launch")
  | EvDestroy => launch_game = true
  | _ => True
  end.

(** The events of an import attempt before it notifies anyone: labels,
    log lines, and the calls of the Persist step. *)
Definition working_event (ev : Event) : Prop :=
  match ev with
  | EvHideProgress _ | EvChecksumLabel _ _ | EvDescriptionLabel _ _
  | EvCategoryLabel _ _ | EvInstallerLookup _ | EvLogInfo _
  | EvWriteConfig _ _ _ | EvAddGame _ | EvDownloadMedia _ => True
  | _ => False
  end.

(** What [import_rom] emits once [add_game] has returned. *)
Definition imported_events (launch_game : bool) (game : Game) : list Event :=
  [EvEmit game "game-installed"; EvEmit game "game-updated"] ++
  (if launch_game then [EvEmit game "game-launch"; EvDestroy] else []).

(** A checksum computation for [filename]. *)
Definition hashes (filename : string) (ev : Event) : Prop :=
  ev = EvMd5Hash filename ∨ ev = EvMd5InZip filename.

(** A rom set [import_rom] can act on: it carries an error to report or
    a rom to install. *)
Definition attemptable (rom_set : RomSet) : Prop :=
  is_Some (rs_error rom_set) ∨ rs_roms rom_set ≠ [].

(** [grows P w w']: from [w] to [w'] the button is untouched, the heap
    and the database only got new entries at their ends, and the trace
    got events that all satisfy [P]. *)
Definition grows (P : Event → Prop) (w w' : World) : Prop :=
  auto_launch_button w' = auto_launch_button w ∧
  (∃ objs, heap w' = heap w ++ objs) ∧
  (∃ rows, games_db w' = games_db w ++ rows) ∧
  (∃ evs, trace w' = trace w ++ evs ∧ Forall P evs).

(** [never_raises m]: the Python function always returns. *)
Definition never_raises {A} (m : M A) : Prop :=
  ∀ w, ∃ a, (m w).1 = Ok a.

(** The import loop went through [results] with auto-launch on and no
    file of it was imported. *)
Inductive all_failed (ext : Externals)
    : list (string * list RomSet) → World → World → Prop :=
| all_failed_nil w : all_failed ext [] w w
| all_failed_cons filename result rest w w1 w2 :
    import_result ext filename result true w = (Ok false, w1) →
    all_failed ext rest w1 w2 →
    all_failed ext ((filename, result) :: rest) w w2.

(** The files of a batch in the order of their first occurrence. *)
Fixpoint first_seen (files : list string) : list string :=
  match files with
  | [] => []
  | filename :: rest =>
      filename :: filter (λ other, other ≠ filename) (first_seen rest)
  end.

(** The events the search produces for one file. *)
Definition search_event (filename : string) (ev : Event) : Prop :=
  match ev with
  | EvProgress f _ | EvMd5InZip f | EvMd5Hash f => f = filename
  | EvSearchTosec _ => True
  | _ => False
  end.

(** A file name with the extension [.zip], in any case. *)
Definition named_zip (filename : string) : Prop :=
  ∃ stem suffix, filename = stem +:+ suffix ∧ lower suffix = ".zip".

(** What [import_rom] shows of a candidate before it persists it. *)
Definition label_events (filename : string) (rom_set : RomSet) (rom : Rom)
    : list Event :=
  [EvHideProgress filename;
   EvChecksumLabel filename (md5 rom);
   EvDescriptionLabel filename (rs_name rom_set);
   EvCategoryLabel filename (rs_category rom_set)].

Definition no_installer (p : string) : Exn :=
  RuntimeError ("Lutris does not have a default installer for the '"
                +:+ p +:+ "' platform.").

(** Neither a signal on a game nor the closing of the dialog. *)
Definition no_signal (ev : Event) : Prop :=
  ev ≠ EvDestroy ∧ ∀ game signal, ev ≠ EvEmit game signal.

(** The widgets of one row, for a row created at position [n]. *)
Definition row_widgets (n : nat) (file_path : string) : list Widget :=
  [WListBoxRow (Some (n + 1)%nat);
   WBox [n + 2; n + 3; n + 4; n + 5; n + 6; n + 7]%nat;
   WLabel "" false; WLabel file_path false; WLabel "" false;
   WLabel "" true; WLabel "" true; WLabel "" true].

Fixpoint row_ids (n : nat) (files : list string) : list nat :=
  match files with
  | [] => []
  | _ :: rest => n :: row_ids (n + 8) rest
  end.

Fixpoint rows_widgets (n : nat) (files : list string) : list Widget :=
  match files with
  | [] => []
  | file_path :: rest => row_widgets n file_path ++ rows_widgets (n + 8) rest
  end.

(** The dict of the labels at offset [k] in their rows. *)
Fixpoint label_dict (k n : nat) (files : list string) (d : gmap string nat)
    : gmap string nat :=
  match files with
  | [] => d
  | file_path :: rest => label_dict k (n + 8) rest (<[file_path := (n + k)%nat]> d)
  end.

(** The label an event is shown on: every event about a file looks its
    label up in one of the dicts, under the file's path. *)
Definition has_label (g : Gui) (ev : Event) : Prop :=
  match ev with
  | EvProgress f _ | EvHideProgress f => is_Some (progress_labels g !! f)
  | EvChecksumLabel f _ => is_Some (checksum_labels g !! f)
  | EvDescriptionLabel f _ => is_Some (description_labels g !! f)
  | EvCategoryLabel f _ => is_Some (category_labels g !! f)
  | EvErrorLabel f _ => is_Some (error_labels g !! f)
  | _ => True
  end.

(** The file whose labels an event touches. *)
Definition event_file (ev : Event) : option string :=
  match ev with
  | EvProgress f _ | EvHideProgress f | EvChecksumLabel f _
  | EvDescriptionLabel f _ | EvCategoryLabel f _ | EvErrorLabel f _ => Some f
  | _ => None
  end.

(** The calls of the Persist step. *)
Definition persist_event (ev : Event) : Prop :=
  match ev with
  | EvInstallerLookup _ | EvLogInfo _ | EvWriteConfig _ _ _ | EvAddGame _
  | EvDownloadMedia _ => True
  | _ => False
  end.

(** An event that touches a label touches one of [filename], or of one
    of [files]. *)
Definition about (filename : string) (ev : Event) : Prop :=
  match event_file ev with
  | Some f => f = filename
  | None => True
  end.

Definition within (files : list string) (ev : Event) : Prop :=
  match event_file ev with
  | Some f => f ∈ files
  | None => True
  end.

(** Neither the closing of the dialog nor the launch of a game. *)
Definition no_launch (ev : Event) : Prop :=
  ev ≠ EvDestroy ∧ ∀ game, ev ≠ EvEmit game "game-launch".

(** ** A concrete library, for the examples *)

Definition mario : RomSet :=
  {| rs_name := "Mario Bros. (World)";
     rs_category := "Nintendo Entertainment System";
     rs_game := None; rs_error := None;
     rs_roms := [{| md5 := "md5:/roms/mario.nes" |}] |}.

Definition zelda : RomSet :=
  {| rs_name := "Zelda (USA)";
     rs_category := "Nintendo Entertainment System";
     rs_game := None; rs_error := None;
     rs_roms := [{| md5 := "md5:/roms/zelda.nes" |}] |}.

Definition metroid : RomSet :=
  {| rs_name := "Metroid (Europe)";
     rs_category := "Nintendo Entertainment System";
     rs_game := None; rs_error := None;
     rs_roms := [{| md5 := "zip:/roms/metroid.ZIP" |}] |}.

Definition pong : RomSet :=
  {| rs_name := "Pong"; rs_category := "Magnavox Odyssey";
     rs_game := None; rs_error := None;
     rs_roms := [{| md5 := "md5:/roms/pong.bin" |}] |}.

(** Two objects: the installer of the platform [nes] and its game
    section. *)
Definition sample_heap : list Obj :=
  [OInstaller "libretro" 1%nat;
   OSection {[ "main_file" := "rom"; "core" := "mesen" ]}].

Definition sample_search (md5sum : string) : Result (list RomSet) :=
  if decide (md5sum = "md5:/roms/mario.nes") then Ok [mario]
  else if decide (md5sum = "md5:/roms/zelda.nes") then Ok [zelda]
  else if decide (md5sum = "zip:/roms/metroid.ZIP") then Ok [metroid]
  else if decide (md5sum = "md5:/roms/pong.bin") then Ok [pong]
  else if decide (md5sum = "md5:/roms/timeout.bin")
       then Raise (OtherError "HTTP Error 503: Service Unavailable")
  else Ok [].

Definition sample (media : string → Result unit) : Externals :=
  {| get_path_cache := [(7, "/roms/sonic.md")];
     name_of_game := λ id,
       if decide (id = 7) then "Sonic The Hedgehog" else "Mario Bros.";
     get_md5_in_zip := λ filename, Ok ("zip:" +:+ filename);
     get_md5_hash := λ filename, Ok ("md5:" +:+ filename);
     search_tosec_by_md5 := sample_search;
     guess_platform := λ rom_set,
       if decide (rs_category rom_set = "Nintendo Entertainment System")
       then Some "nes" else None;
     clean_rom_name := λ name, name;
     slugify := lower;
     DEFAULT_INSTALLERS := {[ "nes" := 0%nat ]};
     write_game_config := λ slug _ _, Ok ("/config/" +:+ slug +:+ ".yml");
     db_add_game := λ db _, Ok (Z.of_nat (length db) + 1);
     download_lutris_media := media |}.

(** The media service answers, or is unreachable. *)
Definition online : Externals := sample (λ _, Ok tt).

Definition offline : Externals :=
  sample (λ _, Raise (OtherError "Connection refused")).

(** The dialog right after [__init__], with the user's choice for the
    "Launch game" button. *)
Definition sample_world (launch_game : bool) : World :=
  {| platform := None; auto_launch_button := launch_game;
     heap := sample_heap; games_db := []; trace := [] |}.

(** The same dialog after [display_game_info] recognised a NES rom. *)
Definition nes_world : World := with_platform (Some "nes") (sample_world false).

Definition sonic : Game := {| game_id := 7; game_name := "Sonic The Hedgehog" |}.

Definition mario_row : GameRecord :=
  {| gr_name := "Mario Bros. (World)"; gr_runner := "libretro";
     gr_slug := "mario bros. (world)"; gr_directory := "";
     gr_installed := 1;
     gr_installer_slug := "mario bros. (world)-libretro";
     gr_configpath := "/config/mario bros. (world).yml" |}.


Definition importable_rest : list (string * list RomSet) :=
  [("/roms/zelda.nes", [zelda]); ("/roms/metroid.ZIP", [metroid])].

(** A batch in which the installed game comes last. *)
Definition installed_last : list (string * list RomSet) :=
  [("/roms/mario.nes", [mario]);
   ("/roms/sonic.md", [installed_rom_set sonic])].

(** Variants of the sample library: another path cache, and
    collaborators that fail. *)
Definition sample_with (cache : list (Z * string))
    (hash : string → Result string) (guess : RomSet → option string)
    (write : string → string → gmap string string → Result string)
    (insert : list GameRecord → GameRecord → Result Z) : Externals :=
  {| get_path_cache := cache;
     name_of_game := name_of_game online;
     get_md5_in_zip := get_md5_in_zip online;
     get_md5_hash := hash;
     search_tosec_by_md5 := search_tosec_by_md5 online;
     guess_platform := guess;
     clean_rom_name := clean_rom_name online;
     slugify := slugify online;
     DEFAULT_INSTALLERS := DEFAULT_INSTALLERS online;
     write_game_config := write;
     db_add_game := insert;
     download_lutris_media := download_lutris_media online |}.

(** One file cannot be read. *)
Definition locked_file : Externals :=
  sample_with (get_path_cache online)
    (λ filename,
       if decide (filename = "/roms/locked.bin")
       then Raise (OtherError "Permission denied")
       else get_md5_hash online filename)
    (guess_platform online) (write_game_config online) (db_add_game online).

(** Two games were installed from the same file. *)
Definition two_sonics : Externals :=
  sample_with [(7, "/roms/sonic.md"); (3, "/roms/doom.wad");
               (9, "/roms/sonic.md")]
    (get_md5_hash online) (guess_platform online) (write_game_config online)
    (db_add_game online).

(** The Odyssey is a known platform, without a default installer. *)
Definition odyssey_known : Externals :=
  sample_with (get_path_cache online) (get_md5_hash online)
    (λ rom_set,
       if decide (rs_category rom_set = "Magnavox Odyssey")
       then Some "odyssey" else guess_platform online rom_set)
    (write_game_config online) (db_add_game online).

Definition read_only_disk : Externals :=
  sample_with (get_path_cache online) (get_md5_hash online)
    (guess_platform online)
    (λ _ _ _, Raise (OtherError "Read-only file system"))
    (db_add_game online).

Definition database_locked : Externals :=
  sample_with (get_path_cache online) (get_md5_hash online)
    (guess_platform online) (write_game_config online)
    (λ _ _, Raise (OtherError "database is locked")).

(** The catalog knows two candidates for one checksum, the first of a
    platform Lutris does not know. *)
Definition two_candidates : Externals :=
  {| get_path_cache := get_path_cache online;
     name_of_game := name_of_game online;
     get_md5_in_zip := get_md5_in_zip online;
     get_md5_hash := get_md5_hash online;
     search_tosec_by_md5 := λ md5sum,
       if decide (md5sum = "md5:/roms/multi.bin") then Ok [pong; mario]
       else search_tosec_by_md5 online md5sum;
     guess_platform := guess_platform online;
     clean_rom_name := clean_rom_name online;
     slugify := slugify online;
     DEFAULT_INSTALLERS := DEFAULT_INSTALLERS online;
     write_game_config := write_game_config online;
     db_add_game := db_add_game online;
     download_lutris_media := download_lutris_media online |}.

(** Results in which nothing can be imported. *)
Definition nothing_importable : list (string * list RomSet) :=
  [("/roms/pong.bin", [pong]);
   ("/roms/unknown.bin", [error_rom_set not_identified])].

Definition nes_section : gmap string string :=
  {[ "main_file" := "rom"; "core" := "mesen" ]}.

(** ** Running the monad *)

Lemma log_log evs1 evs2 w : log evs2 (log evs1 w) = log (evs1 ++ evs2) w.
Proof. unfold log; simpl. by rewrite app_assoc. Qed.

Lemma log_nil w : log [] w = w.
Proof. destruct w; unfold log; simpl. by rewrite app_nil_r. Qed.

Lemma run_bind {A B} (m : M A) (f : A → M B) w :
  (m ≫= f) w =
  match m w with
  | (Ok a, w') => f a w'
  | (Raise ex, w') => (Raise ex, w')
  end.
Proof. reflexivity. Qed.

(** One step of symbolic execution through the primitives. *)
Ltac mred :=
  cbn [emit call raise get_heap set_heap get_platform set_platform
       get_games_db insert_row get_active mret M_ret
       platform auto_launch_button heap games_db trace
       log with_heap with_platform with_games_db].

Ltac mrun := repeat first [rewrite run_bind | progress mred].

(** Two worlds built from the same field updates are equal. *)
Ltac world_eq :=
  unfold emit, raise, call, mret, M_ret;
  unfold log, with_heap, with_platform, with_games_db; simpl;
  rewrite <- ?app_assoc; reflexivity.

(** *** The order [grows] *)

Lemma grows_refl P w : grows P w w.
Proof.
  split; [done|]. split; [by exists []; rewrite app_nil_r|].
  split; [by exists []; rewrite app_nil_r|].
  exists []. by rewrite app_nil_r.
Qed.

Lemma grows_trans P w1 w2 w3 : grows P w1 w2 → grows P w2 w3 → grows P w1 w3.
Proof.
  intros (Hb1 & [o1 Ho1] & [r1 Hr1] & [e1 [He1 HP1]])
         (Hb2 & [o2 Ho2] & [r2 Hr2] & [e2 [He2 HP2]]).
  split; [congruence|]. split; [|split].
  - exists (o1 ++ o2). by rewrite Ho2, Ho1, app_assoc.
  - exists (r1 ++ r2). by rewrite Hr2, Hr1, app_assoc.
  - exists (e1 ++ e2). split; [by rewrite He2, He1, app_assoc|].
    by apply Forall_app.
Qed.

Lemma grows_mono (P Q : Event → Prop) w w' :
  (∀ ev, P ev → Q ev) → grows P w w' → grows Q w w'.
Proof.
  intros HPQ (Hb & Ho & Hr & [evs [He HP]]). repeat split; try done.
  exists evs. split; [done|]. by eapply Forall_impl.
Qed.

Lemma grows_log (P : Event → Prop) evs w : Forall P evs → grows P w (log evs w).
Proof.
  intros HP. split; [done|]. split; [by exists []; rewrite app_nil_r|].
  split; [by exists []; rewrite app_nil_r|]. by exists evs.
Qed.

(** Close a [grows] goal between a world and explicit updates of it. *)
Ltac grows_tac :=
  unfold grows; cbn [platform auto_launch_button heap games_db trace
                     log with_heap with_platform with_games_db];
  rewrite <- ?app_assoc;
  split; [reflexivity|];
  split; [first [by eexists | by exists []; rewrite app_nil_r]|];
  split; [first [by eexists | by exists []; rewrite app_nil_r]|];
  first [ eexists; split; [reflexivity|]; by repeat constructor
        | exists []; split; [by rewrite app_nil_r | constructor] ].

Section Basics.

Context (ext : Externals).

(** *** The default of the "Launch game" button *)

(** C10: the dialog opens with "Launch game" ticked exactly when it was
    given one file; with no file or with several the button is unticked. *)
Theorem auto_launch_default_one_file (files : list string)
    (h : list Obj) (db : list GameRecord) :
  (auto_launch_button (init files h db) = true ↔ length files = 1%nat) ∧
  (auto_launch_button (init files h db) = false ↔
     length files = 0%nat ∨ (2 ≤ length files)%nat).
Proof.
  unfold init, auto_launch_default; simpl. split.
  - apply Nat.eqb_eq.
  - rewrite Nat.eqb_neq. lia.
Qed.

(** *** Failures of one candidate *)

Lemma import_rom_error (error : Exn) filename launch_game w :
  import_rom ext (error_rom_set error) filename launch_game w =
    (Ok false, log (EvHideProgress filename :: failure_events filename error) w).
Proof.
  unfold import_rom, try_except, failure_events. simpl. mrun.
  (rewrite ?log_log; reflexivity).
Qed.

(** C6 (amended): the import attempt of a candidate (no ["error"] key, at
    least one rom) whose platform [guess_platform] does not know fails,
    with the unknown-platform message on the file's error label; the trace
    of the attempt shows the labels, the log entry and the error label and
    no access to [DEFAULT_INSTALLERS], no config write and no database
    insert.  The loop then goes on with the next candidate of the file, in
    the state the attempt left; when the candidate is the only one of its
    file the file has failed with that message, and the batch goes on with
    the next file. *)
Theorem unknown_platform_fails rom_set filename launch_game w rom roms :
  rs_error rom_set = None →
  rs_roms rom_set = rom :: roms →
  guess_platform ext rom_set = None →
  let w' :=
    with_platform None
      (log ([EvHideProgress filename;
             EvChecksumLabel filename (md5 rom);
             EvDescriptionLabel filename (rs_name rom_set);
             EvCategoryLabel filename (rs_category rom_set)] ++
            failure_events filename (unknown_platform (rs_category rom_set)))
         w) in
  import_rom ext rom_set filename launch_game w = (Ok false, w') ∧
  (∀ rest,
     import_result ext filename (rom_set :: rest) launch_game w =
       import_result ext filename rest launch_game w') ∧
  import_result ext filename [rom_set] launch_game w = (Ok false, w') ∧
  (∀ others,
     import_results ext ((filename, [rom_set]) :: others) launch_game w =
       import_results ext others launch_game w').
Proof.
  intros He Hr Hg w'.
  assert (import_rom ext rom_set filename launch_game w = (Ok false, w'))
    as Hrun.
  { unfold import_rom, try_except, display_game_info.
    rewrite He, Hr. mrun. rewrite Hg. simpl. mrun.
    unfold w', with_platform, log; simpl. by rewrite <- !app_assoc. }
  assert (∀ rest,
            import_result ext filename (rom_set :: rest) launch_game w =
              import_result ext filename rest launch_game w') as Hnext.
  { intros rest. cbn [import_result]. by rewrite run_bind, Hrun. }
  split; [exact Hrun|]. split; [exact Hnext|].
  split; [by rewrite Hnext|].
  intros others. cbn [import_results]. by rewrite run_bind, Hnext.
Qed.

End Basics.

Lemma unknown_platform_fails_witness :
  let w' :=
    with_platform None
      (log [EvHideProgress "/roms/pong.bin";
            EvChecksumLabel "/roms/pong.bin" "md5:/roms/pong.bin";
            EvDescriptionLabel "/roms/pong.bin" "Pong";
            EvCategoryLabel "/roms/pong.bin" "Magnavox Odyssey";
            EvLogError "Failed to import a ROM: The platform 'Magnavox Odyssey' is unknown to Lutris.";
            EvErrorLabel "/roms/pong.bin" "The platform 'Magnavox Odyssey' is unknown to Lutris."]
         (sample_world false)) in
  rs_error pong = None ∧ rs_roms pong = [{| md5 := "md5:/roms/pong.bin" |}] ∧
  guess_platform online pong = None ∧
  import_rom online pong "/roms/pong.bin" false (sample_world false) =
    (Ok false, w') ∧
  (∀ rest,
     import_result online "/roms/pong.bin" (pong :: rest) false
       (sample_world false) =
       import_result online "/roms/pong.bin" rest false w') ∧
  import_result online "/roms/pong.bin" [pong] false (sample_world false) =
    (Ok false, w') ∧
  (∀ others,
     import_results online (("/roms/pong.bin", [pong]) :: others) false
       (sample_world false) =
       import_results online others false w').
Proof.
  cbv zeta.
  split; [reflexivity|]. split; [reflexivity|]. split; [reflexivity|].
  apply (unknown_platform_fails online pong "/roms/pong.bin" false
           (sample_world false) {| md5 := "md5:/roms/pong.bin" |} []);
    reflexivity.
Defined.

(** ** The search phase *)

Section Search.

Context (ext : Externals).

Lemma installed_result_id items filename result :
  installed_result ext items filename result =
  match installed_id items filename with
  | Some id => Some [installed_rom_set (load_game ext id)]
  | None => result
  end.
Proof.
  revert result. induction items as [|[id path] rest IH]; intros result; simpl.
  - done.
  - case_decide; rewrite IH; by destruct (installed_id rest filename).
Qed.

Lemma installed_id_Some items filename id :
  installed_id items filename = Some id → (id, filename) ∈ items.
Proof.
  induction items as [|[id' path] rest IH]; simpl; [done|].
  destruct (installed_id rest filename) as [id''|].
  - intros [= ->]. right. by apply IH.
  - case_decide; [|done]. intros [= ->]. subst. left.
Qed.

Lemma installed_id_None items filename :
  installed_id items filename = None ↔ filename ∉ items.*2.
Proof.
  induction items as [|[id' path] rest IH]; simpl.
  - split; [|done]. intros _. apply not_elem_of_nil.
  - rewrite not_elem_of_cons, <- IH.
    destruct (installed_id rest filename).
    + split; [done|]. by intros [_ ?].
    + case_decide; split; try done. intros [Hne _]. by subst.
Qed.

Lemma search_file_outcome filename w :
  search_file ext (get_path_cache ext) filename w =
    (Ok (outcome ext filename).1, log (outcome ext filename).2 w).
Proof.
  unfold search_file, try_finally, try_except, show_progress, outcome.
  mrun. rewrite installed_result_id.
  destruct (installed_id (get_path_cache ext) filename) as [id|] eqn:Hid.
  - assert (filename ∈ (get_path_cache ext).*2) as Hin.
    { apply dec_stable. intros Hn. apply installed_id_None in Hn. congruence. }
    rewrite (bool_decide_eq_true_2 _ Hin). simpl. (rewrite ?log_log; reflexivity).
  - apply installed_id_None in Hid. rewrite (bool_decide_eq_false_2 _ Hid).
    mrun. unfold lookup_events, checksum, checksum_event.
    destruct (endswith (lower filename) ".zip"); mrun.
    + destruct (get_md5_in_zip ext filename) as [md5sum|error]; simpl;
        [|rewrite ?log_log; reflexivity].
      mrun. destruct (search_tosec_by_md5 ext md5sum) as [[|rs result]|error];
        simpl; (rewrite ?log_log; reflexivity).
    + destruct (get_md5_hash ext filename) as [md5sum|error]; simpl;
        [|rewrite ?log_log; reflexivity].
      mrun. destruct (search_tosec_by_md5 ext md5sum) as [[|rs result]|error];
        simpl; (rewrite ?log_log; reflexivity).
Qed.

Lemma search_loop_outcome files results w :
  search_loop ext (get_path_cache ext) files results w =
    (Ok (foldl (λ results filename,
                  od_set filename (outcome ext filename).1 results)
               results files),
     log (search_trace ext files) w).
Proof.
  revert results w. induction files as [|filename rest IH]; intros results w.
  - simpl. by rewrite log_nil.
  - simpl search_loop. rewrite run_bind, search_file_outcome, IH.
    unfold search_trace. simpl. by rewrite log_log.
Qed.

Lemma search_checksums_outcome files w :
  search_checksums ext files w =
    (Ok (search_results ext files), log (search_trace ext files) w).
Proof. apply search_loop_outcome. Qed.

Lemma start_outcome files w :
  start ext files w =
    search_result_finished ext (search_results ext files) None
      (log (search_trace ext files) w).
Proof. unfold start. by rewrite search_checksums_outcome. Qed.

Lemma od_get_set_eq {V} key (value : V) d :
  od_get key (od_set key value d) = Some value.
Proof.
  induction d as [|[key' value'] rest IH]; simpl.
  - by rewrite decide_True.
  - case_decide; simpl.
    + by rewrite decide_True.
    + by rewrite decide_False.
Qed.

Lemma od_get_set_ne {V} key key' (value : V) d :
  key ≠ key' → od_get key (od_set key' value d) = od_get key d.
Proof.
  intros Hne. induction d as [|[key'' value''] rest IH]; simpl.
  - by rewrite decide_False.
  - destruct (decide (key' = key'')) as [->|]; simpl.
    + by rewrite !decide_False.
    + case_decide; done.
Qed.

Lemma od_get_foldl_keep (f : string → list RomSet) files results filename :
  od_get filename results = Some (f filename) →
  od_get filename
    (foldl (λ results filename, od_set filename (f filename) results)
       results files) = Some (f filename).
Proof.
  revert results. induction files as [|file rest IH]; intros results Hget;
    simpl; [done|].
  apply IH. destruct (decide (filename = file)) as [->|Hne].
  - apply od_get_set_eq.
  - by rewrite od_get_set_ne.
Qed.

Lemma od_get_foldl (f : string → list RomSet) files results filename :
  filename ∈ files →
  od_get filename
    (foldl (λ results filename, od_set filename (f filename) results)
       results files) = Some (f filename).
Proof.
  revert results. induction files as [|file rest IH]; intros results Hin;
    simpl.
  - by apply elem_of_nil in Hin.
  - destruct (decide (filename = file)) as [->|Hne].
    + apply od_get_foldl_keep, od_get_set_eq.
    + apply IH. apply elem_of_cons in Hin as [?|?]; done.
Qed.

Lemma search_results_get files filename :
  filename ∈ files →
  od_get filename (search_results ext files) = Some (outcome ext filename).1.
Proof. apply (od_get_foldl (λ filename, (outcome ext filename).1)). Qed.

End Search.

(** ** Synthesizing the installer *)

Lemma fill_foldl_lookup filepath (l : list (string * string))
    (acc : gmap string string) key :
  foldl (fill_step filepath) acc l !! key =
    if decide ((key, "rom") ∈ l) then Some filepath else acc !! key.
Proof.
  revert acc. induction l as [|[key' value'] rest IH]; intros acc;
    cbn [foldl].
  - case_decide as Hin; [by apply elem_of_nil in Hin|done].
  - rewrite IH. unfold fill_step; cbn [fst snd].
    destruct (decide ((key, "rom") ∈ rest)) as [Hin|Hnin].
    + rewrite decide_True; [done|]. by right.
    + destruct (decide (value' = "rom")) as [->|Hne].
      * destruct (decide (key = key')) as [->|Hk].
        -- rewrite lookup_insert_eq, decide_True; [done|]. left.
        -- rewrite lookup_insert_ne by done. rewrite decide_False; [done|].
           intros [Heq|?]%elem_of_cons; [congruence|done].
      * rewrite decide_False; [done|].
        intros [Heq|?]%elem_of_cons; [congruence|done].
Qed.

Lemma fill_foldl_filled filepath (items : gmap string string) :
  foldl (fill_step filepath) items (map_to_list items) = filled filepath items.
Proof.
  apply map_eq. intros key. rewrite fill_foldl_lookup. unfold filled.
  rewrite lookup_fmap. case_decide as Hin.
  - apply elem_of_map_to_list in Hin. rewrite Hin.
    cbn [fmap option_fmap option_map]. by rewrite decide_True.
  - destruct (items !! key) as [value|] eqn:Hkey;
      cbn [fmap option_fmap option_map]; [|done].
    rewrite decide_False; [done|]. intros ->.
    by apply Hin, elem_of_map_to_list.
Qed.

Lemma lookup_app_first (h : list Obj) o1 o2 :
  (h ++ [o1; o2]) !! length h = Some o1.
Proof. by apply list_lookup_middle. Qed.

Lemma lookup_app_second (h : list Obj) o1 o2 :
  (h ++ [o1; o2]) !! S (length h) = Some o2.
Proof.
  rewrite lookup_app_r by lia. by replace (S (length h) - length h)%nat with 1%nat by lia.
Qed.

Lemma insert_app_first (h : list Obj) o o1 o2 :
  <[length h := o]> (h ++ [o1; o2]) = h ++ [o; o2].
Proof.
  rewrite insert_app_r_alt by lia. by rewrite Nat.sub_diag.
Qed.

Section Workflow.

Context (ext : Externals).

Lemma fill_rom_run h runner items l filepath w :
  heap w = h ++ [OSection items; OInstaller runner (length h)] →
  fill_rom (S (length h)) l filepath w =
    (Ok tt,
     with_heap (h ++ [OSection (foldl (fill_step filepath) items l);
                      OInstaller runner (length h)]) w).
Proof.
  revert items w. induction l as [|[key value] rest IH]; intros items w Hw.
  - simpl. rewrite <- Hw. by destruct w.
  - cbn [fill_rom foldl]. rewrite run_bind.
    change (fill_step filepath items (key, value))
      with (if decide (value = "rom") then <[key:=filepath]> items else items).
    destruct (decide (value = "rom")) as [->|Hne].
    + unfold getitem_game, dict_setitem, read. mrun.
      rewrite Hw, lookup_app_second. mrun.
      rewrite Hw, lookup_app_first. mrun.
      rewrite Hw, insert_app_first.
      rewrite (IH (<[key:=filepath]> items)) by done.
      by destruct w.
    + cbn [mret M_ret]. by rewrite (IH items).
Qed.


Lemma deepcopy_run l runner game items w :
  heap w !! l = Some (OInstaller runner game) →
  heap w !! game = Some (OSection items) →
  deepcopy l w =
    (Ok (S (length (heap w))),
     with_heap (heap w ++ [OSection items; OInstaller runner (length (heap w))])
       w).
Proof.
  intros Hl Hgame. unfold deepcopy, read, alloc. mrun. rewrite Hl. mrun.
  rewrite Hgame. mrun. cbn [heap with_heap]. unfold with_heap; simpl.
  rewrite length_app, <- app_assoc. simpl.
  by replace (length (heap w) + 1)%nat with (S (length (heap w))) by lia.
Qed.

Lemma add_game_run rom_set filepath w p runner items :
  platform w = Some p →
  template ext (heap w) p = Some (runner, items) →
  let name := clean_rom_name ext (rs_name rom_set) in
  let slug := slugify ext name in
  let config := filled filepath items in
  let w1 :=
    with_heap (heap w ++ [OSection config; OInstaller runner (length (heap w))])
      (log [EvLogInfo ("Installing " +:+ name); EvInstallerLookup (Some p);
            EvWriteConfig slug runner config] w) in
  add_game ext rom_set filepath w =
    match write_game_config ext slug runner config with
    | Raise ex => (Raise ex, w1)
    | Ok configpath =>
        let row := new_row ext rom_set runner configpath in
        match db_add_game ext (games_db w) row with
        | Raise ex => (Raise ex, log [EvAddGame row] w1)
        | Ok id =>
            let w2 := log [EvAddGame row; EvDownloadMedia slug]
                        (with_games_db (games_db w ++ [row]) w1) in
            match download_lutris_media ext slug with
            | Raise ex => (Raise ex, w2)
            | Ok _ => (Ok id, w2)
            end
        end
    end.
Proof.
  intros Hp Ht. unfold template in Ht.
  destruct (DEFAULT_INSTALLERS ext !! p) as [l|] eqn:Hl; [|done].
  simpl in Ht.
  destruct (heap w !! l) as [[runner' game|]|] eqn:Hinst; try done.
  destruct (heap w !! game) as [[|items']|] eqn:Hgame; try done.
  injection Ht as -> ->. intros name slug config w1.
  unfold add_game. mrun. rewrite Hp.
  change (Some p ≫= (λ p0 : string, DEFAULT_INSTALLERS ext !! p0))
    with (DEFAULT_INSTALLERS ext !! p).
  rewrite Hl.
  rewrite (deepcopy_run l runner game items) by done.
  unfold getitem_game, getitem_runner, dict_items, read. mrun.
  rewrite lookup_app_second. mrun. rewrite (lookup_app_first (heap w)). mrun.
  rewrite (fill_rom_run (heap w) runner items) by done.
  rewrite fill_foldl_filled.
  repeat (mrun; first [rewrite lookup_app_second | rewrite lookup_app_first]).
  mrun. fold name slug config.
  destruct (write_game_config ext slug runner config) as [configpath|ex];
    [|world_eq].
  repeat (mrun; first [rewrite lookup_app_second | rewrite lookup_app_first]).
  mrun. fold (new_row ext rom_set runner configpath).
  destruct (db_add_game ext (games_db w) _) as [id|ex]; [|world_eq].
  mrun. destruct (download_lutris_media ext slug) as [[]|ex]; world_eq.
Qed.


Lemma add_game_no_template rom_set filepath w :
  (∀ p, platform w = Some p → template ext (heap w) p = None) →
  ∃ ex objs,
    add_game ext rom_set filepath w =
      (Raise ex,
       with_heap (heap w ++ objs)
         (log [EvLogInfo ("Installing " +:+ clean_rom_name ext (rs_name rom_set));
               EvInstallerLookup (platform w)] w)).
Proof.
  intros Ht. unfold add_game. mrun.
  destruct (platform w) as [p|] eqn:Hp; cbn [mbind option_bind].
  2:{ eexists _, []. mrun. rewrite app_nil_r. world_eq. }
  specialize (Ht p eq_refl). unfold template in Ht.
  change (Some p ≫= (λ p0 : string, DEFAULT_INSTALLERS ext !! p0))
    with (DEFAULT_INSTALLERS ext !! p).
  destruct (DEFAULT_INSTALLERS ext !! p) as [l|] eqn:Hl.
  2:{ eexists _, []. mrun. rewrite app_nil_r. world_eq. }
  simpl in Ht. unfold deepcopy, getitem_game, read, alloc. mrun.
  destruct (heap w !! l) as [[runner game|items]|] eqn:Hinst; mrun.
  - destruct (heap w !! game) as [[|items]|] eqn:Hgame; try done; mrun.
    + eexists _, []. rewrite app_nil_r. world_eq.
    + eexists _, []. rewrite app_nil_r. world_eq.
  - rewrite list_lookup_middle by done. mrun.
    eexists _, [_]. world_eq.
  - eexists _, []. rewrite app_nil_r. world_eq.
Qed.


Lemma add_game_summary rom_set filepath w :
  ∃ r w',
    add_game ext rom_set filepath w = (r, w') ∧
    grows working_event w w' ∧
    platform w' = platform w ∧
    match r with
    | Ok id =>
        ∃ row, games_db w' = games_db w ++ [row] ∧
               db_add_game ext (games_db w) row = Ok id
    | Raise _ => True
    end.
Proof.
  destruct (platform w) as [p|] eqn:Hp.
  - destruct (template ext (heap w) p) as [[runner items]|] eqn:Ht.
    + rewrite (add_game_run rom_set filepath w p runner items Hp Ht).
      cbv zeta.
      destruct (write_game_config ext _ runner _) as [configpath|ex].
      2:{ eexists _, _. split; [done|]. split; [grows_tac|done]. }
      destruct (db_add_game ext (games_db w) _) as [id|ex] eqn:Hdb.
      2:{ eexists _, _. split; [done|]. split; [grows_tac|done]. }
      destruct (download_lutris_media ext _) as [[]|ex].
      * eexists _, _. split; [done|]. split; [grows_tac|]. split; [done|].
        eexists. split; [|exact Hdb]. done.
      * eexists _, _. split; [done|]. split; [grows_tac|done].
    + destruct (add_game_no_template rom_set filepath w) as (ex & objs & ->).
      { intros p' Hp'. congruence. }
      eexists _, _. split; [done|]. split; [grows_tac|done].
  - destruct (add_game_no_template rom_set filepath w) as (ex & objs & ->).
    { intros p' Hp'. congruence. }
    eexists _, _. split; [done|]. split; [grows_tac|done].
Qed.


(** ** One import attempt *)

Lemma working_import_event launch_game ev :
  working_event ev → import_event launch_game ev.
Proof. by destruct ev. Qed.

Lemma failure_import_events launch_game filename ex :
  Forall (import_event launch_game) (failure_events filename ex).
Proof. by repeat constructor. Qed.

Lemma imported_import_events launch_game game :
  Forall (import_event launch_game) (imported_events launch_game game).
Proof.
  unfold imported_events.
  destruct launch_game; simpl;
    repeat (apply List.Forall_cons; [simpl; auto|]); apply List.Forall_nil.
Qed.

Lemma import_rom_summary rom_set filename launch_game w :
  ∃ w',
    grows (import_event launch_game) w w' ∧
    ((import_rom ext rom_set filename launch_game w = (Ok true, w') ∧
      rs_error rom_set = None ∧ rs_roms rom_set ≠ [] ∧
      ∃ id row evs,
        games_db w' = games_db w ++ [row] ∧
        trace w' =
          trace w ++ evs ++ imported_events launch_game (load_game ext id) ∧
        Forall working_event evs) ∨
     (import_rom ext rom_set filename launch_game w = (Ok false, w') ∧
      ∃ ex evs,
        trace w' = trace w ++ evs ++ failure_events filename ex ∧
        Forall working_event evs) ∨
     (import_rom ext rom_set filename launch_game w = (Ok false, w') ∧
      rs_error rom_set = None ∧ rs_roms rom_set = [] ∧
      w' = log [EvHideProgress filename] w)).
Proof.
  unfold import_rom, try_except. mrun.
  destruct (rs_error rom_set) as [error|] eqn:Herr.
  { mrun. eexists. split; [|right; left; split; [reflexivity|]].
    - grows_tac.
    - exists error, [EvHideProgress filename]. split; [|by repeat constructor].
      mred. by rewrite <- !app_assoc. }
  destruct (rs_roms rom_set) as [|rom roms] eqn:Hroms.
  { mrun. eexists. split; [|right; right; done]. grows_tac. }
  unfold display_game_info. mrun.
  destruct (guess_platform ext rom_set) as [p|] eqn:Hguess.
  2:{ mrun. eexists. split; [|right; left; split; [reflexivity|]].
      - grows_tac.
      - eexists _, [_; _; _; _].
        split; [mred; by rewrite <- !app_assoc|by repeat constructor]. }
  mrun.
  match goal with
  | |- context [add_game ext rom_set filename ?W] => set (w0 := W)
  end.
  assert (grows working_event w w0) as Hw0 by (subst w0; grows_tac).
  assert (games_db w0 = games_db w) as Hdb0 by done.
  destruct (add_game_summary rom_set filename w0)
    as (r & w1 & -> & Hw1 & _ & Hr).
  pose proof (grows_trans _ _ _ _ Hw0 Hw1) as Hw.
  pose proof (grows_mono _ (import_event launch_game) _ _
                (working_import_event _) Hw) as Hi.
  destruct Hw as (_ & _ & _ & evs & Hevs & Hwork).
  destruct r as [id|ex].
  - destruct Hr as (row & Hrow & _). rewrite Hdb0 in Hrow. mrun.
    exists (log (imported_events launch_game (load_game ext id)) w1).
    split; [|left; split; [|split; [done|split; [done|]]]].
    + eapply grows_trans; [exact Hi|].
      apply grows_log, imported_import_events.
    + unfold game_launch, imported_events. destruct launch_game; mrun;
        by rewrite !log_log.
    + exists id, row, evs. split; [done|]. split; [|done].
      mred. by rewrite Hevs, <- app_assoc.
  - mrun. exists (log (failure_events filename ex) w1).
    split; [|right; left; split].
    + eapply grows_trans; [exact Hi|].
      apply grows_log, failure_import_events.
    + unfold failure_events. by rewrite !log_log.
    + exists ex, evs. split; [|done]. mred. by rewrite Hevs, <- app_assoc.
Qed.


(** ** The import loops *)

Lemma import_result_summary filename result launch_game w :
  ∃ b w',
    import_result ext filename result launch_game w = (Ok b, w') ∧
    grows (import_event launch_game) w w' ∧
    (b = true →
       ∃ game evs,
         trace w' = trace w ++ evs ++ imported_events launch_game game) ∧
    (b = false → result ≠ [] → Forall attemptable result →
       ∃ ex evs, trace w' = trace w ++ evs ++ failure_events filename ex).
Proof.
  revert w. induction result as [|rom_set rest IH]; intros w.
  - exists false, w. split; [done|]. split; [apply grows_refl|]. done.
  - cbn [import_result]. rewrite run_bind.
    destruct (import_rom_summary rom_set filename launch_game w)
      as (w1 & Hg1 & [Hok|[Hfail|Hnone]]).
    + destruct Hok as (-> & _ & _ & id & row & evs & _ & Htr & _).
      exists true, w1. split; [done|]. split; [done|]. split; [|done].
      intros _. by exists (load_game ext id), evs.
    + destruct Hfail as (-> & ex & evs & Htr & _).
      destruct (IH w1) as (b & w2 & Hrun & Hg2 & Hb1 & Hb2).
      exists b, w2. split; [done|].
      split; [by eapply grows_trans|]. split.
      * intros Hb. destruct (Hb1 Hb) as (game & evs' & Htr').
        exists game, (evs ++ failure_events filename ex ++ evs').
        rewrite Htr', Htr. by rewrite <- !app_assoc.
      * intros Hb _ Hatt. apply Forall_cons in Hatt as [_ Hatt].
        destruct rest as [|rom_set' rest'].
        -- cbn in Hrun. injection Hrun as _ <-. by exists ex, evs.
        -- destruct (Hb2 Hb) as (ex' & evs' & Htr'); [done|done|].
           exists ex', (evs ++ failure_events filename ex ++ evs').
           rewrite Htr', Htr. by rewrite <- !app_assoc.
    + destruct Hnone as (-> & Herr & Hroms & ->).
      destruct (IH (log [EvHideProgress filename] w))
        as (b & w2 & Hrun & Hg2 & Hb1 & Hb2).
      exists b, w2. split; [done|].
      split; [by eapply grows_trans|]. split.
      * intros Hb. destruct (Hb1 Hb) as (game & evs' & Htr').
        exists game, (EvHideProgress filename :: evs').
        rewrite Htr'. mred. by rewrite <- !app_assoc.
      * intros _ _ Hatt. apply Forall_cons in Hatt as [[[? Hsome]|Hne] _].
        -- congruence.
        -- done.
Qed.

Lemma import_results_summary results launch_game w :
  ∃ w',
    import_results ext results launch_game w = (Ok tt, w') ∧
    grows (import_event launch_game) w w'.
Proof.
  revert w. induction results as [|[filename result] rest IH]; intros w.
  - exists w. split; [done|]. apply grows_refl.
  - cbn [import_results]. rewrite run_bind.
    destruct (import_result_summary filename result launch_game w)
      as (b & w1 & -> & Hg1 & _).
    destruct (IH w1) as (w2 & Hrun & Hg2).
    destruct b, launch_game; mred.
    + by exists w1.
    + exists w2. split; [done|]. by eapply grows_trans.
    + exists w2. split; [done|]. by eapply grows_trans.
    + exists w2. split; [done|]. by eapply grows_trans.
Qed.

Lemma search_result_finished_summary results w :
  ∃ w',
    search_result_finished ext results None w = (Ok tt, w') ∧
    grows (import_event (auto_launch_button w)) w w'.
Proof.
  unfold search_result_finished. rewrite run_bind. mred.
  destruct (auto_launch_button w) eqn:Hb.
  - destruct (find_installed results) as [game|].
    + unfold game_launch. mrun. eexists. split; [done|].
      rewrite log_log. apply grows_log. by repeat constructor.
    + destruct (import_results_summary results true w) as (w' & -> & Hg).
      by exists w'.
  - destruct (import_results_summary results false w) as (w' & -> & Hg).
    by exists w'.
Qed.

Lemma start_summary files w :
  ∃ w' evs,
    start ext files w = (Ok tt, w') ∧
    auto_launch_button w' = auto_launch_button w ∧
    (∃ objs, heap w' = heap w ++ objs) ∧
    (∃ rows, games_db w' = games_db w ++ rows) ∧
    trace w' = trace w ++ search_trace ext files ++ evs ∧
    Forall (import_event (auto_launch_button w)) evs.
Proof.
  rewrite start_outcome.
  destruct (search_result_finished_summary (search_results ext files)
              (log (search_trace ext files) w))
    as (w' & -> & Hb & Ho & Hr & evs & Htr & Hev).
  exists w', evs. split; [done|]. split; [done|]. split; [done|].
  split; [done|]. split; [|done]. rewrite Htr. mred. by rewrite <- app_assoc.
Qed.


(** ** Files that are already installed *)

Lemma outcome_installed filename id :
  installed_id (get_path_cache ext) filename = Some id →
  outcome ext filename =
    ([installed_rom_set (load_game ext id)],
     [EvProgress filename "Looking for installed game...";
      EvProgress filename ""]).
Proof. intros Hid. unfold outcome. by rewrite Hid. Qed.

Lemma outcome_no_hash filename file :
  filename ∈ (get_path_cache ext).*2 →
  Forall (λ ev, ¬ hashes filename ev) (outcome ext file).2.
Proof.
  intros Hin. unfold outcome.
  destruct (installed_id (get_path_cache ext) file) as [id|] eqn:Hid.
  - repeat constructor; intros [?|?]; done.
  - apply installed_id_None in Hid.
    assert (file ≠ filename) as Hne by (intros ->; done).
    unfold lookup_events, checksum_event.
    destruct (checksum ext file) as [md5sum|error];
      destruct (endswith (lower file) ".zip");
      repeat constructor; intros [?|?]; congruence.
Qed.

Lemma search_trace_Forall (P : Event → Prop) files :
  (∀ file, Forall P (outcome ext file).2) →
  Forall P (search_trace ext files).
Proof.
  intros HP. unfold search_trace. induction files as [|file rest IH]; simpl.
  - constructor.
  - apply Forall_app. by split.
Qed.

Lemma search_trace_no_hash filename files :
  filename ∈ (get_path_cache ext).*2 →
  Forall (λ ev, ¬ hashes filename ev) (search_trace ext files).
Proof.
  intros Hin. apply search_trace_Forall. intros file.
  by apply outcome_no_hash.
Qed.

Lemma import_event_no_hash launch_game filename ev :
  import_event launch_game ev → ¬ hashes filename ev.
Proof. intros Hev [->| ->]; done. Qed.

(** C1: a file whose path is a value of the path cache is resolved by
    the search to the rom set of an installed game, with two progress
    messages and no checksum or catalog call; importing that result
    changes nothing but the progress label (no row, no config); in any
    batch the file's entry of the results is that rom set, and the whole
    run never computes a checksum of the file. *)
Theorem installed_file_skips_lookup filename :
  filename ∈ (get_path_cache ext).*2 →
  ∃ id,
    (id, filename) ∈ get_path_cache ext ∧
    let result := [installed_rom_set (load_game ext id)] in
    (∀ w, search_file ext (get_path_cache ext) filename w =
            (Ok result,
             log [EvProgress filename "Looking for installed game...";
                  EvProgress filename ""] w)) ∧
    (∀ launch_game w,
       import_result ext filename result launch_game w =
         (Ok false, log [EvHideProgress filename] w)) ∧
    (∀ files w,
       filename ∈ files →
       ∃ results w',
         search_checksums ext files w = (Ok results, w') ∧
         od_get filename results = Some result) ∧
    (∀ files w,
       ∃ evs,
         trace (start ext files w).2 = trace w ++ evs ∧
         Forall (λ ev, ¬ hashes filename ev) evs).
Proof.
  intros Hin.
  destruct (installed_id (get_path_cache ext) filename) as [id|] eqn:Hid.
  2:{ by apply installed_id_None in Hid. }
  exists id. split; [by apply installed_id_Some|].
  pose proof (outcome_installed filename id Hid) as Hout.
  split; [|split; [|split]].
  - intros w. by rewrite search_file_outcome, Hout.
  - intros launch_game w. unfold import_result, import_rom, try_except.
    by mrun.
  - intros files w Hfiles. rewrite search_checksums_outcome.
    eexists _, _. split; [done|].
    by rewrite search_results_get, Hout.
  - intros files w.
    destruct (start_summary files w)
      as (w' & evs & -> & _ & _ & _ & Htr & Hev).
    exists (search_trace ext files ++ evs). split; [done|].
    apply Forall_app. split; [by apply search_trace_no_hash|].
    eapply Forall_impl; [done|]. intros ev. apply import_event_no_hash.
Qed.

(** ** Lookup failures *)

Lemma import_results_error filename error rest launch_game w :
  import_results ext ((filename, [error_rom_set error]) :: rest) launch_game w =
    import_results ext rest launch_game
      (log (EvHideProgress filename :: failure_events filename error) w).
Proof.
  cbn [import_results import_result]. rewrite !run_bind.
  rewrite import_rom_error. by mred.
Qed.

(** C7 (amended): for a file that is not installed and whose checksum
    was computed, an empty answer of the catalog is recorded as the
    failure "This ROM could not be identified.", and an exception of the
    lookup is recorded as the failure with that exception's own message;
    in both cases the search goes on with the next file, and the import
    loop shows the message on the file's error label and goes on with the
    next file. *)
Theorem lookup_failure_recorded filename md5sum error :
  filename ∉ (get_path_cache ext).*2 →
  checksum ext filename = Ok md5sum →
  (search_tosec_by_md5 ext md5sum = Ok [] ∧ error = not_identified) ∨
  search_tosec_by_md5 ext md5sum = Raise error →
  (∀ w, search_file ext (get_path_cache ext) filename w =
          (Ok [error_rom_set error], log (lookup_events filename md5sum) w)) ∧
  (∀ rest results w,
     search_loop ext (get_path_cache ext) (filename :: rest) results w =
       search_loop ext (get_path_cache ext) rest
         (od_set filename [error_rom_set error] results)
         (log (lookup_events filename md5sum) w)) ∧
  (∀ rest launch_game w,
     import_results ext ((filename, [error_rom_set error]) :: rest)
       launch_game w =
       import_results ext rest launch_game
         (log [EvHideProgress filename;
               EvLogError ("Failed to import a ROM: " +:+ str error);
               EvErrorLabel filename (str error)] w)).
Proof.
  intros Hnin Hsum Hlookup.
  assert (outcome ext filename =
            ([error_rom_set error], lookup_events filename md5sum)) as Hout.
  { unfold outcome. apply installed_id_None in Hnin. rewrite Hnin, Hsum.
    by destruct Hlookup as [[-> ->]| ->]. }
  split; [|split].
  - intros w. by rewrite search_file_outcome, Hout.
  - intros rest results w. cbn [search_loop]. rewrite run_bind.
    by rewrite search_file_outcome, Hout.
  - intros rest launch_game w. apply import_results_error.
Qed.

(** ** Installed games first *)

Lemma find_game_Some result rom_set game :
  rom_set ∈ result → rs_game rom_set = Some game →
  ∃ game', find_game result = Some game'.
Proof.
  induction result as [|rom_set' rest IH]; intros Hin Hgame.
  - by apply elem_of_nil in Hin.
  - simpl. destruct (rs_game rom_set') as [game'|] eqn:Hg'; [by eexists|].
    apply elem_of_cons in Hin as [->|Hin]; [congruence|by apply IH].
Qed.

Lemma find_game_elem result game :
  find_game result = Some game →
  ∃ rom_set, rom_set ∈ result ∧ rs_game rom_set = Some game.
Proof.
  induction result as [|rom_set rest IH]; simpl; [done|].
  destruct (rs_game rom_set) as [game'|] eqn:Hg.
  - intros [= ->]. exists rom_set. split; [left|done].
  - intros (rom_set' & Hin & Hgame)%IH. exists rom_set'. split; [by right|done].
Qed.

Lemma find_installed_Some results filename result rom_set game :
  (filename, result) ∈ results → rom_set ∈ result →
  rs_game rom_set = Some game →
  ∃ game', find_installed results = Some game'.
Proof.
  induction results as [|[filename' result'] rest IH]; intros Hin Hrs Hgame.
  - by apply elem_of_nil in Hin.
  - simpl. destruct (find_game result') as [game'|] eqn:Hg'; [by eexists|].
    apply elem_of_cons in Hin as [[= <- <-]|Hin].
    + destruct (find_game_Some _ _ _ Hrs Hgame). congruence.
    + by apply IH.
Qed.

Lemma find_installed_elem results game :
  find_installed results = Some game →
  ∃ filename result rom_set,
    (filename, result) ∈ results ∧ rom_set ∈ result ∧
    rs_game rom_set = Some game.
Proof.
  induction results as [|[filename result] rest IH]; simpl; [done|].
  destruct (find_game result) as [game'|] eqn:Hg.
  - intros [= ->]. apply find_game_elem in Hg as (rom_set & Hin & Hgame).
    exists filename, result, rom_set. split; [left|done].
  - intros (filename' & result' & rom_set & Hin & Hrs & Hgame)%IH.
    exists filename', result', rom_set. split; [by right|done].
Qed.

(** C3: with "Launch game" ticked, as soon as one file of the results
    resolved to an installed game (a rom set with a ["game"]), wherever it
    stands in the batch, the callback launches an installed game of the
    results (the first in their order) and does nothing else: the trace
    gets the launch signal and the closing of the dialog, and the heap and
    the database are untouched. *)
Theorem installed_game_launched results w filename result rom_set game :
  auto_launch_button w = true →
  (filename, result) ∈ results →
  rom_set ∈ result →
  rs_game rom_set = Some game →
  ∃ launched,
    find_installed results = Some launched ∧
    (∃ filename' result' rom_set',
       (filename', result') ∈ results ∧ rom_set' ∈ result' ∧
       rs_game rom_set' = Some launched) ∧
    search_result_finished ext results None w =
      (Ok tt, log [EvEmit launched "game-launch"; EvDestroy] w).
Proof.
  intros Hb Hin Hrs Hgame.
  destruct (find_installed_Some _ _ _ _ _ Hin Hrs Hgame) as [launched Hfind].
  exists launched. split; [done|]. split; [by apply find_installed_elem|].
  unfold search_result_finished, game_launch. mrun. rewrite Hb, Hfind.
  mrun. world_eq.
Qed.


(** ** Files that failed before an import *)

Lemma import_results_all_failed pre rest w w1 :
  all_failed ext pre w w1 →
  import_results ext (pre ++ rest) true w = import_results ext rest true w1.
Proof.
  induction 1 as [|filename result pre' w w1 w2 Hrun _ IH]; [done|].
  cbn [app import_results]. rewrite run_bind, Hrun. apply IH.
Qed.

(** ** Imported or failed *)

(** C5 (amended): a file that is not in the path cache leaves the search
    with an error entry or with the catalog's candidates, at least one;
    every candidate tried for it that carries an error or a rom is either
    imported ([import_rom] returns [True]: one row inserted, the game
    announced, no error label) or failed ([False]: the reason is on the
    file's error label, nothing announced), so a file whose candidates are
    all of that kind ends imported or with a failure shown; without
    auto-launch no file is skipped. *)
Theorem imported_or_failed filename :
  filename ∉ (get_path_cache ext).*2 →
  (∀ w, ∃ result evs,
     search_file ext (get_path_cache ext) filename w = (Ok result, log evs w) ∧
     ((∃ error, result = [error_rom_set error]) ∨
      (result ≠ [] ∧
       ∃ md5sum, checksum ext filename = Ok md5sum ∧
                 search_tosec_by_md5 ext md5sum = Ok result))) ∧
  (∀ rom_set launch_game w,
     attemptable rom_set →
     ∃ w',
       (import_rom ext rom_set filename launch_game w = (Ok true, w') ∧
        ∃ id row evs,
          games_db w' = games_db w ++ [row] ∧
          trace w' =
            trace w ++ evs ++ imported_events launch_game (load_game ext id) ∧
          Forall working_event evs) ∨
       (import_rom ext rom_set filename launch_game w = (Ok false, w') ∧
        ∃ ex evs,
          trace w' = trace w ++ evs ++ failure_events filename ex ∧
          Forall working_event evs)) ∧
  (∀ result launch_game w,
     result ≠ [] → Forall attemptable result →
     ∃ b w',
       import_result ext filename result launch_game w = (Ok b, w') ∧
       if b
       then ∃ game evs,
              trace w' = trace w ++ evs ++ imported_events launch_game game
       else ∃ ex evs,
              trace w' = trace w ++ evs ++ failure_events filename ex) ∧
  (∀ result rest w,
     import_results ext ((filename, result) :: rest) false w =
       import_results ext rest false
         (import_result ext filename result false w).2).
Proof.
  intros Hnin. split; [|split; [|split]].
  - intros w. rewrite search_file_outcome. eexists _, _. split; [done|].
    unfold outcome. apply installed_id_None in Hnin. rewrite Hnin.
    destruct (checksum ext filename) as [md5sum|error]; [|left; by eexists].
    destruct (search_tosec_by_md5 ext md5sum) as [[|rom_set rest]|error] eqn:Hs;
      cbn [fst]; [left; by eexists| |left; by eexists].
    right. split; [done|]. by exists md5sum.
  - intros rom_set launch_game w Hatt.
    destruct (import_rom_summary rom_set filename launch_game w)
      as (w' & _ & [Hok|[Hfail|Hnone]]); exists w'.
    + left. destruct Hok as (Hrun & _ & _ & Hrest). done.
    + by right.
    + destruct Hnone as (_ & Herr & Hroms & _).
      destruct Hatt as [[? Hsome]|Hne]; congruence.
  - intros result launch_game w Hne Hatt.
    destruct (import_result_summary filename result launch_game w)
      as (b & w' & Hrun & _ & Hb1 & Hb2).
    exists b, w'. split; [done|]. destruct b; [by apply Hb1|by apply Hb2].
  - intros result rest w. cbn [import_results]. rewrite run_bind.
    destruct (import_result_summary filename result false w)
      as (b & w' & -> & _). by destruct b.
Qed.


(** ** The Persist step *)

Lemma add_game_inserted rom_set filepath w :
  games_db (add_game ext rom_set filepath w).2 ≠ games_db w →
  ∃ p runner items configpath id,
    platform w = Some p ∧
    template ext (heap w) p = Some (runner, items) ∧
    let name := clean_rom_name ext (rs_name rom_set) in
    let slug := slugify ext name in
    let config := filled filepath items in
    let row := new_row ext rom_set runner configpath in
    write_game_config ext slug runner config = Ok configpath ∧
    db_add_game ext (games_db w) row = Ok id ∧
    add_game ext rom_set filepath w =
      (match download_lutris_media ext slug with
       | Ok _ => Ok id
       | Raise ex => Raise ex
       end,
       log [EvAddGame row; EvDownloadMedia slug]
         (with_games_db (games_db w ++ [row])
            (with_heap
               (heap w ++
                [OSection config; OInstaller runner (length (heap w))])
               (log [EvLogInfo ("Installing " +:+ name);
                     EvInstallerLookup (Some p);
                     EvWriteConfig slug runner config] w)))).
Proof.
  intros Hdb.
  destruct (platform w) as [p|] eqn:Hp.
  2:{ destruct (add_game_no_template rom_set filepath w) as (ex & objs & Hrun).
      { intros p' Hp'. congruence. }
      rewrite Hrun in Hdb. done. }
  destruct (template ext (heap w) p) as [[runner items]|] eqn:Ht.
  2:{ destruct (add_game_no_template rom_set filepath w) as (ex & objs & Hrun).
      { intros p' Hp'. congruence. }
      rewrite Hrun in Hdb. done. }
  pose proof (add_game_run rom_set filepath w p runner items Hp Ht) as Hrun.
  cbv zeta in Hrun.
  destruct (write_game_config ext _ runner _) as [configpath|ex] eqn:Hcfg.
  2:{ rewrite Hrun in Hdb. done. }
  destruct (db_add_game ext (games_db w) _) as [id|ex] eqn:Hadd.
  2:{ rewrite Hrun in Hdb. done. }
  exists p, runner, items, configpath, id. repeat (split; [done|]).
  rewrite Hrun. by destruct (download_lutris_media ext _) as [[]|ex].
Qed.

Lemma add_game_ok_inserted rom_set filepath w id :
  (add_game ext rom_set filepath w).1 = Ok id →
  games_db (add_game ext rom_set filepath w).2 ≠ games_db w.
Proof.
  destruct (add_game_summary rom_set filepath w) as (r & w' & -> & _ & _ & Hr).
  cbn [fst snd]. intros ->. destruct Hr as (row & -> & _).
  intros Heq. apply (f_equal length) in Heq. rewrite length_app in Heq.
  simpl in Heq. lia.
Qed.

(** C9: when [add_game] returns, the platform has a template in the
    store, the config that was written is the template with every value
    ["rom"] of its game section replaced by the file's path (the other
    values kept), and the one row it inserted has the cleaned name, the
    slug of that name, the template's runner, an empty directory,
    installed = 1, installer slug "<slug>-<runner>" and the path the config
    writer returned. *)
Theorem persisted_row rom_set filepath w id :
  (add_game ext rom_set filepath w).1 = Ok id →
  ∃ p runner items configpath,
    platform w = Some p ∧
    template ext (heap w) p = Some (runner, items) ∧
    let name := clean_rom_name ext (rs_name rom_set) in
    let slug := slugify ext name in
    let row :=
      {| gr_name := name; gr_runner := runner; gr_slug := slug;
         gr_directory := ""; gr_installed := 1;
         gr_installer_slug := slug +:+ "-" +:+ runner;
         gr_configpath := configpath |} in
    let w' := (add_game ext rom_set filepath w).2 in
    write_game_config ext slug runner (filled filepath items) = Ok configpath ∧
    db_add_game ext (games_db w) row = Ok id ∧
    games_db w' = games_db w ++ [row] ∧
    EvWriteConfig slug runner (filled filepath items) ∈ trace w' ∧
    (∀ key, items !! key = Some "rom" →
            filled filepath items !! key = Some filepath) ∧
    (∀ key value, items !! key = Some value → value ≠ "rom" →
                  filled filepath items !! key = Some value) ∧
    (∀ key, items !! key = None → filled filepath items !! key = None).
Proof.
  intros Hok.
  destruct (add_game_inserted rom_set filepath w)
    as (p & runner & items & configpath & id' & Hp & Ht & Hcfg & Hadd & Hrun).
  { by eapply add_game_ok_inserted. }
  rewrite Hrun in Hok. cbn [fst] in Hok.
  destruct (download_lutris_media ext _) as [[]|ex]; [|done].
  injection Hok as ->.
  exists p, runner, items, configpath.
  split; [done|]. split; [done|]. cbv zeta. split; [done|]. split; [done|].
  rewrite Hrun. cbn [snd]. split; [done|]. split; [|split; [|split]].
  - mred. set_solver.
  - intros key Hkey. unfold filled. rewrite lookup_fmap, Hkey.
    cbn [fmap option_fmap option_map]. by rewrite decide_True.
  - intros key value Hkey Hne. unfold filled. rewrite lookup_fmap, Hkey.
    cbn [fmap option_fmap option_map]. by rewrite decide_False.
  - intros key Hkey. unfold filled. by rewrite lookup_fmap, Hkey.
Qed.

(** C2 (amended): once the row of a file is inserted, [import_rom] calls
    the media download for the slug, synchronously and as the last step of
    the Persist step, and what it reports depends on that call alone: when
    the call returns the file is imported and announced; when it raises,
    the exception is caught like any other and shown as the file's
    failure. *)
Theorem media_download_decides rom_set filename launch_game w :
  let r := import_rom ext rom_set filename launch_game w in
  let slug := slugify ext (clean_rom_name ext (rs_name rom_set)) in
  games_db r.2 ≠ games_db w →
  match download_lutris_media ext slug with
  | Ok _ =>
      r.1 = Ok true ∧
      ∃ id evs,
        trace r.2 =
          trace w ++ evs ++ [EvDownloadMedia slug] ++
          imported_events launch_game (load_game ext id)
  | Raise ex =>
      r.1 = Ok false ∧
      ∃ evs,
        trace r.2 =
          trace w ++ evs ++ [EvDownloadMedia slug] ++
          failure_events filename ex
  end.
Proof.
  cbv zeta. unfold import_rom, try_except. mrun.
  destruct (rs_error rom_set) as [error|]; [by mrun|].
  destruct (rs_roms rom_set) as [|rom roms]; [by mrun|].
  unfold display_game_info. mrun.
  destruct (guess_platform ext rom_set) as [p|]; [|by mrun].
  mrun.
  match goal with
  | |- context [add_game ext rom_set filename ?W] => set (w0 := W)
  end.
  destruct (decide (games_db (add_game ext rom_set filename w0).2 =
                    games_db w0)) as [Heq|Hne].
  - intros Hdb. exfalso. apply Hdb.
    destruct (add_game ext rom_set filename w0) as [[id|ex] w1] eqn:Hrun;
      cbn [snd] in Heq; mrun; [|done].
    destruct launch_game; unfold game_launch; mrun; done.
  - intros _.
    destruct (add_game_inserted rom_set filename w0 Hne)
      as (p' & runner & items & configpath & id & _ & _ & _ & _ & ->).
    set (evs := [EvHideProgress filename;
                 EvChecksumLabel filename (md5 rom);
                 EvDescriptionLabel filename (rs_name rom_set);
                 EvCategoryLabel filename (rs_category rom_set);
                 EvLogInfo ("Installing " +:+
                            clean_rom_name ext (rs_name rom_set));
                 EvInstallerLookup (Some p');
                 EvWriteConfig
                   (slugify ext (clean_rom_name ext (rs_name rom_set)))
                   runner (filled filename items);
                 EvAddGame (new_row ext rom_set runner configpath)]).
    destruct (download_lutris_media ext _) as [[]|ex]; mrun.
    + split; [by destruct launch_game|].
      exists id, evs. subst evs.
      unfold imported_events, game_launch.
      destruct launch_game; mrun; subst w0; unfold mret, M_ret, emit;
        cbn [fst snd]; mred; rewrite <- ?app_assoc; reflexivity.
    + split; [done|]. exists evs. subst evs.
      unfold failure_events. subst w0. unfold mret, M_ret, emit.
      cbn [fst snd]. mred. rewrite <- ?app_assoc. reflexivity.
Qed.


(** ** The installer store *)

Lemma template_app h objs p t :
  template ext h p = Some t → template ext (h ++ objs) p = Some t.
Proof.
  unfold template. destruct (DEFAULT_INSTALLERS ext !! p) as [l|]; [|done].
  cbn [mbind option_bind].
  destruct (h !! l) as [[runner game|]|] eqn:Hl; try done.
  destruct (h !! game) as [[|items]|] eqn:Hgame; try done.
  intros <-.
  rewrite (lookup_app_l_Some _ _ _ _ Hl), (lookup_app_l_Some _ _ _ _ Hgame).
  done.
Qed.

(** C8: the installer a platform has in [DEFAULT_INSTALLERS] is the same
    after any import attempt and after any whole run of the dialog as it
    was before, and so is every object that was in the store; [add_game]
    works on two new objects, the copy of the installer and the copy of
    its game section, and it is the copy that is filled with the file's
    path and handed to the config writer. *)
Theorem template_never_mutated w p runner items :
  template ext (heap w) p = Some (runner, items) →
  (∀ rom_set filename launch_game,
     let w' := (import_rom ext rom_set filename launch_game w).2 in
     template ext (heap w') p = Some (runner, items) ∧
     ∀ l o, heap w !! l = Some o → heap w' !! l = Some o) ∧
  (∀ files,
     let w' := (start ext files w).2 in
     template ext (heap w') p = Some (runner, items) ∧
     ∀ l o, heap w !! l = Some o → heap w' !! l = Some o) ∧
  (∀ rom_set filepath,
     platform w = Some p →
     let w' := (add_game ext rom_set filepath w).2 in
     let slug := slugify ext (clean_rom_name ext (rs_name rom_set)) in
     heap w' =
       heap w ++ [OSection (filled filepath items);
                  OInstaller runner (length (heap w))] ∧
     EvWriteConfig slug runner (filled filepath items) ∈ trace w').
Proof.
  intros Ht. split; [|split].
  - intros rom_set filename launch_game. cbv zeta.
    destruct (import_rom_summary rom_set filename launch_game w)
      as (w' & (_ & [objs Hobjs] & _) & Hcases).
    assert ((import_rom ext rom_set filename launch_game w).2 = w') as Hw'.
    { by destruct Hcases as [[-> _]|[[-> _]|[-> _]]]. }
    rewrite Hw', Hobjs. split; [by apply template_app|].
    intros l o. apply lookup_app_l_Some.
  - intros files. cbv zeta.
    destruct (start_summary files w)
      as (w' & evs & -> & _ & [objs Hobjs] & _).
    cbn [snd]. rewrite Hobjs. split; [by apply template_app|].
    intros l o. apply lookup_app_l_Some.
  - intros rom_set filepath Hp. cbv zeta.
    rewrite (add_game_run rom_set filepath w p runner items Hp Ht).
    cbv zeta.
    destruct (write_game_config ext _ runner _) as [configpath|ex];
      [|split; [done|mred; set_solver]].
    destruct (db_add_game ext (games_db w) _) as [id|ex];
      [|split; [done|mred; set_solver]].
    destruct (download_lutris_media ext _) as [[]|ex];
      (split; [done|mred; set_solver]).
Qed.

(** X20: a whole run, the search and the import that follows it, never
    ends with an exception, whatever the collaborators raise. *)
Lemma start_never_raises files : never_raises (start ext files).
Proof.
  intros w. destruct (start_summary files w) as (w' & evs & -> & _).
  by eexists.
Qed.

(** X19: with the button unticked nothing is launched and the dialog
    stays open. *)
Lemma unticked_never_launches files w :
  auto_launch_button w = false →
  ∃ evs,
    trace (start ext files w).2 = trace w ++ evs ∧
    (EvDestroy ∉ evs) ∧ (∀ game, EvEmit game "game-launch" ∉ evs).
Proof.
  intros Hb.
  destruct (start_summary files w) as (w' & evs & -> & _ & _ & _ & Htr & Hev).
  rewrite Hb in Hev.
  assert (Forall (λ ev, ev ≠ EvDestroy ∧
                        (∀ game, ev ≠ EvEmit game "game-launch"))
            (search_trace ext files ++ evs)) as Hall.
  { apply Forall_app. split.
    - apply search_trace_Forall. intros file. unfold outcome.
      destruct (installed_id (get_path_cache ext) file);
        [repeat (apply List.Forall_cons; [split; [done|by intros game]|]);
         apply List.Forall_nil|].
      unfold lookup_events, checksum_event.
      destruct (checksum ext file); destruct (endswith (lower file) ".zip");
        repeat (apply List.Forall_cons; [split; [done|by intros game]|]);
        apply List.Forall_nil.
    - eapply Forall_impl; [done|]. intros ev Hi. split.
      + by intros ->.
      + intros game ->. by destruct Hi as [?|[?|[? _]]]. }
  exists (search_trace ext files ++ evs). split; [done|].
  rewrite Forall_forall in Hall. split.
  - intros Hin. by destruct (Hall _ Hin) as [? _].
  - intros game Hin. destruct (Hall _ Hin) as [_ Hne]. by apply (Hne game).
Qed.

End Workflow.

(** ** The theorems at work on the sample library *)

Lemma installed_file_skips_lookup_witness :
  "/roms/sonic.md" ∈ (get_path_cache online).*2 ∧
  ∃ id,
    (id, "/roms/sonic.md") ∈ get_path_cache online ∧
    let result := [installed_rom_set (load_game online id)] in
    (∀ w, search_file online (get_path_cache online) "/roms/sonic.md" w =
            (Ok result,
             log [EvProgress "/roms/sonic.md" "Looking for installed game...";
                  EvProgress "/roms/sonic.md" ""] w)) ∧
    (∀ launch_game w,
       import_result online "/roms/sonic.md" result launch_game w =
         (Ok false, log [EvHideProgress "/roms/sonic.md"] w)) ∧
    (∀ files w,
       "/roms/sonic.md" ∈ files →
       ∃ results w',
         search_checksums online files w = (Ok results, w') ∧
         od_get "/roms/sonic.md" results = Some result) ∧
    (∀ files w,
       ∃ evs,
         trace (start online files w).2 = trace w ++ evs ∧
         Forall (λ ev, ¬ hashes "/roms/sonic.md" ev) evs).
Proof.
  split; [compute_done|].
  apply (installed_file_skips_lookup online "/roms/sonic.md"). compute_done.
Defined.

(** C2, as stated, fails: with the media service unreachable the row of
    the file is inserted and the file is nevertheless reported as failed,
    with the message of the download's exception; with the service
    reachable the same file is imported. *)
Lemma media_failure_fails_import :
  let r := import_rom offline mario "/roms/mario.nes" false (sample_world false) in
  r.1 = Ok false ∧
  games_db r.2 = [mario_row] ∧
  last (trace r.2) = Some (EvErrorLabel "/roms/mario.nes" "Connection refused") ∧
  (import_rom online mario "/roms/mario.nes" false (sample_world false)).1 =
    Ok true.
Proof. cbv zeta. repeat split; vm_compute; reflexivity. Qed.

Lemma media_download_decides_witness :
  let r := import_rom offline mario "/roms/mario.nes" true (sample_world true) in
  games_db r.2 ≠ games_db (sample_world true) ∧
  r.1 = Ok false ∧
  ∃ evs,
    trace r.2 =
      trace (sample_world true) ++ evs ++
      [EvDownloadMedia "mario bros. (world)"] ++
      failure_events "/roms/mario.nes" (OtherError "Connection refused").
Proof.
  cbv zeta. split; [compute_done|].
  apply (media_download_decides offline mario "/roms/mario.nes" true
           (sample_world true)).
  compute_done.
Defined.

Lemma installed_game_launched_witness :
  auto_launch_button (sample_world true) = true ∧
  ("/roms/sonic.md", [installed_rom_set sonic]) ∈ installed_last ∧
  installed_rom_set sonic ∈ [installed_rom_set sonic] ∧
  rs_game (installed_rom_set sonic) = Some sonic ∧
  ∃ launched,
    find_installed installed_last = Some launched ∧
    (∃ filename' result' rom_set',
       (filename', result') ∈ installed_last ∧ rom_set' ∈ result' ∧
       rs_game rom_set' = Some launched) ∧
    search_result_finished online installed_last None (sample_world true) =
      (Ok tt, log [EvEmit launched "game-launch"; EvDestroy] (sample_world true)).
Proof.
  split; [reflexivity|]. split; [compute_done|]. split; [compute_done|].
  split; [reflexivity|].
  apply (installed_game_launched online installed_last (sample_world true)
           "/roms/sonic.md" [installed_rom_set sonic]
           (installed_rom_set sonic) sonic);
    first [reflexivity | compute_done].
Defined.

(** Three importable files with "Launch game" ticked: one row, for the
    first file, and after the search no event about the other two. *)
Example three_importable_files :
  let files := ["/roms/mario.nes"; "/roms/zelda.nes"; "/roms/metroid.ZIP"] in
  let r := start online files (sample_world true) in
  search_results online files =
    ("/roms/mario.nes", [mario]) :: importable_rest ∧
  r.1 = Ok tt ∧
  games_db r.2 = [mario_row] ∧
  drop (length (search_trace online files)) (trace r.2) =
    [EvHideProgress "/roms/mario.nes";
     EvChecksumLabel "/roms/mario.nes" "md5:/roms/mario.nes";
     EvDescriptionLabel "/roms/mario.nes" "Mario Bros. (World)";
     EvCategoryLabel "/roms/mario.nes" "Nintendo Entertainment System";
     EvLogInfo "Installing Mario Bros. (World)";
     EvInstallerLookup (Some "nes");
     EvWriteConfig "mario bros. (world)" "libretro"
       {[ "main_file" := "/roms/mario.nes"; "core" := "mesen" ]};
     EvAddGame mario_row;
     EvDownloadMedia "mario bros. (world)";
     EvEmit (load_game online 1) "game-installed";
     EvEmit (load_game online 1) "game-updated";
     EvEmit (load_game online 1) "game-launch";
     EvDestroy].
Proof. cbv zeta. repeat split; vm_compute; reflexivity. Qed.

(** C6, as stated, fails: the catalog gives two candidates for a file,
    the first of a platform Lutris does not know.  That candidate fails
    with the unknown-platform message, and the file is imported all the
    same, from its second candidate: its outcome is not a failure. *)
Lemma unknown_platform_then_imported :
  let files := ["/roms/multi.bin"] in
  let w := sample_world false in
  let w' := (start two_candidates files w).2 in
  (search_checksums two_candidates files w).1 =
    Ok [("/roms/multi.bin", [pong; mario])] ∧
  rs_error pong = None ∧ rs_roms pong ≠ [] ∧
  guess_platform two_candidates pong = None ∧
  (import_result two_candidates "/roms/multi.bin" [pong; mario] false
     (search_checksums two_candidates files w).2).1 = Ok true ∧
  games_db w' = [mario_row] ∧
  drop (length (search_trace two_candidates files)) (trace w') =
    [EvHideProgress "/roms/multi.bin";
     EvChecksumLabel "/roms/multi.bin" "md5:/roms/pong.bin";
     EvDescriptionLabel "/roms/multi.bin" "Pong";
     EvCategoryLabel "/roms/multi.bin" "Magnavox Odyssey";
     EvLogError "Failed to import a ROM: The platform 'Magnavox Odyssey' is unknown to Lutris.";
     EvErrorLabel "/roms/multi.bin" "The platform 'Magnavox Odyssey' is unknown to Lutris.";
     EvHideProgress "/roms/multi.bin";
     EvChecksumLabel "/roms/multi.bin" "md5:/roms/mario.nes";
     EvDescriptionLabel "/roms/multi.bin" "Mario Bros. (World)";
     EvCategoryLabel "/roms/multi.bin" "Nintendo Entertainment System";
     EvLogInfo "Installing Mario Bros. (World)";
     EvInstallerLookup (Some "nes");
     EvWriteConfig "mario bros. (world)" "libretro"
       {[ "main_file" := "/roms/multi.bin"; "core" := "mesen" ]};
     EvAddGame mario_row;
     EvDownloadMedia "mario bros. (world)";
     EvEmit (load_game two_candidates 1) "game-installed";
     EvEmit (load_game two_candidates 1) "game-updated"].
Proof.
  cbv zeta. split; [vm_compute; reflexivity|]. split; [reflexivity|].
  split; [compute_done|]. split; [reflexivity|].
  split; [vm_compute; reflexivity|]. split; vm_compute; reflexivity.
Qed.

(** C5, as stated, fails: with "Launch game" ticked and two importable
    files, the second file is not in the path cache, the search found its
    candidate, and the run ends with the first file's row only and with
    no progress label hidden and no error label shown for the second. *)
Lemma second_file_left_unprocessed :
  let files := ["/roms/mario.nes"; "/roms/zelda.nes"] in
  let w' := (start online files (sample_world true)).2 in
  ("/roms/zelda.nes" ∉ (get_path_cache online).*2) ∧
  (search_checksums online files (sample_world true)).1 =
    Ok [("/roms/mario.nes", [mario]); ("/roms/zelda.nes", [zelda])] ∧
  games_db w' = [mario_row] ∧
  Forall (λ ev, ev ≠ EvHideProgress "/roms/zelda.nes" ∧
                (∀ message, ev ≠ EvErrorLabel "/roms/zelda.nes" message))
    (trace w').
Proof.
  cbv zeta. split; [compute_done|]. split; [vm_compute; reflexivity|].
  split; [vm_compute; reflexivity|].
  match goal with
  | |- Forall ?P ?l => let l' := eval vm_compute in l in change (Forall P l')
  end.
  repeat (apply List.Forall_cons; [split; [done|by intros message]|]).
  apply List.Forall_nil.
Qed.

Lemma imported_or_failed_witness :
  ("/roms/zelda.nes" ∉ (get_path_cache online).*2) ∧
  (∀ w, ∃ result evs,
     search_file online (get_path_cache online) "/roms/zelda.nes" w =
       (Ok result, log evs w) ∧
     ((∃ error, result = [error_rom_set error]) ∨
      (result ≠ [] ∧
       ∃ md5sum, checksum online "/roms/zelda.nes" = Ok md5sum ∧
                 search_tosec_by_md5 online md5sum = Ok result))) ∧
  (∀ rom_set launch_game w,
     attemptable rom_set →
     ∃ w',
       (import_rom online rom_set "/roms/zelda.nes" launch_game w =
          (Ok true, w') ∧
        ∃ id row evs,
          games_db w' = games_db w ++ [row] ∧
          trace w' =
            trace w ++ evs ++
            imported_events launch_game (load_game online id) ∧
          Forall working_event evs) ∨
       (import_rom online rom_set "/roms/zelda.nes" launch_game w =
          (Ok false, w') ∧
        ∃ ex evs,
          trace w' = trace w ++ evs ++ failure_events "/roms/zelda.nes" ex ∧
          Forall working_event evs)) ∧
  (∀ result launch_game w,
     result ≠ [] → Forall attemptable result →
     ∃ b w',
       import_result online "/roms/zelda.nes" result launch_game w =
         (Ok b, w') ∧
       if b
       then ∃ game evs,
              trace w' = trace w ++ evs ++ imported_events launch_game game
       else ∃ ex evs,
              trace w' =
                trace w ++ evs ++ failure_events "/roms/zelda.nes" ex) ∧
  (∀ result rest w,
     import_results online (("/roms/zelda.nes", result) :: rest) false w =
       import_results online rest false
         (import_result online "/roms/zelda.nes" result false w).2).
Proof.
  split; [compute_done|].
  apply (imported_or_failed online "/roms/zelda.nes"). compute_done.
Defined.

(** C7, as stated, fails: when the catalog lookup raises, the failure
    recorded and shown for the file is the exception's own message, not
    "This ROM could not be identified.". *)
Lemma lookup_error_keeps_its_message :
  let error := OtherError "HTTP Error 503: Service Unavailable" in
  let w := sample_world false in
  ("/roms/timeout.bin" ∉ (get_path_cache online).*2) ∧
  checksum online "/roms/timeout.bin" = Ok "md5:/roms/timeout.bin" ∧
  search_tosec_by_md5 online "md5:/roms/timeout.bin" = Raise error ∧
  (search_file online (get_path_cache online) "/roms/timeout.bin" w).1 =
    Ok [error_rom_set error] ∧
  [error_rom_set error] ≠ [error_rom_set not_identified] ∧
  last (trace (start online ["/roms/timeout.bin"] w).2) =
    Some (EvErrorLabel "/roms/timeout.bin"
            "HTTP Error 503: Service Unavailable") ∧
  "HTTP Error 503: Service Unavailable" ≠ str not_identified.
Proof.
  cbv zeta. split; [compute_done|].
  repeat split; try (vm_compute; reflexivity); compute_done.
Qed.

Lemma lookup_failure_recorded_witness :
  ("/roms/unknown.bin" ∉ (get_path_cache online).*2) ∧
  checksum online "/roms/unknown.bin" = Ok "md5:/roms/unknown.bin" ∧
  ((search_tosec_by_md5 online "md5:/roms/unknown.bin" = Ok [] ∧
    not_identified = not_identified) ∨
   search_tosec_by_md5 online "md5:/roms/unknown.bin" = Raise not_identified) ∧
  (∀ w, search_file online (get_path_cache online) "/roms/unknown.bin" w =
          (Ok [error_rom_set not_identified],
           log (lookup_events "/roms/unknown.bin" "md5:/roms/unknown.bin") w)) ∧
  (∀ rest results w,
     search_loop online (get_path_cache online) ("/roms/unknown.bin" :: rest)
       results w =
       search_loop online (get_path_cache online) rest
         (od_set "/roms/unknown.bin" [error_rom_set not_identified] results)
         (log (lookup_events "/roms/unknown.bin" "md5:/roms/unknown.bin") w)) ∧
  (∀ rest launch_game w,
     import_results online
       (("/roms/unknown.bin", [error_rom_set not_identified]) :: rest)
       launch_game w =
       import_results online rest launch_game
         (log [EvHideProgress "/roms/unknown.bin";
               EvLogError ("Failed to import a ROM: " +:+ str not_identified);
               EvErrorLabel "/roms/unknown.bin" (str not_identified)] w)).
Proof.
  split; [compute_done|]. split; [reflexivity|].
  split; [left; split; reflexivity|].
  apply (lookup_failure_recorded online "/roms/unknown.bin"
           "md5:/roms/unknown.bin" not_identified);
    [compute_done|reflexivity|left; split; reflexivity].
Defined.

Lemma template_never_mutated_witness :
  template online (heap nes_world) "nes" =
    Some ("libretro", {[ "main_file" := "rom"; "core" := "mesen" ]}) ∧
  (∀ rom_set filename launch_game,
     let w' := (import_rom online rom_set filename launch_game nes_world).2 in
     template online (heap w') "nes" =
       Some ("libretro", {[ "main_file" := "rom"; "core" := "mesen" ]}) ∧
     ∀ l o, heap nes_world !! l = Some o → heap w' !! l = Some o) ∧
  (∀ files,
     let w' := (start online files nes_world).2 in
     template online (heap w') "nes" =
       Some ("libretro", {[ "main_file" := "rom"; "core" := "mesen" ]}) ∧
     ∀ l o, heap nes_world !! l = Some o → heap w' !! l = Some o) ∧
  (∀ rom_set filepath,
     platform nes_world = Some "nes" →
     let w' := (add_game online rom_set filepath nes_world).2 in
     let slug := slugify online (clean_rom_name online (rs_name rom_set)) in
     heap w' =
       heap nes_world ++
       [OSection (filled filepath {[ "main_file" := "rom"; "core" := "mesen" ]});
        OInstaller "libretro" (length (heap nes_world))] ∧
     EvWriteConfig slug "libretro"
       (filled filepath {[ "main_file" := "rom"; "core" := "mesen" ]})
     ∈ trace w').
Proof.
  split; [vm_compute; reflexivity|].
  apply (template_never_mutated online nes_world "nes" "libretro"
           {[ "main_file" := "rom"; "core" := "mesen" ]}).
  vm_compute. reflexivity.
Defined.

(** The store of the sample library after a whole batch, object by
    object: the template still holds the placeholder and the copy holds
    the path. *)
Example store_after_import :
  let w' := (start online ["/roms/mario.nes"] (sample_world false)).2 in
  heap w' =
    [OInstaller "libretro" 1%nat;
     OSection {[ "main_file" := "rom"; "core" := "mesen" ]};
     OSection {[ "main_file" := "/roms/mario.nes"; "core" := "mesen" ]};
     OInstaller "libretro" 2%nat].
Proof. vm_compute. reflexivity. Qed.

Lemma persisted_row_witness :
  (add_game online mario "/roms/mario.nes" nes_world).1 = Ok 1 ∧
  ∃ p runner items configpath,
    platform nes_world = Some p ∧
    template online (heap nes_world) p = Some (runner, items) ∧
    let name := clean_rom_name online (rs_name mario) in
    let slug := slugify online name in
    let row :=
      {| gr_name := name; gr_runner := runner; gr_slug := slug;
         gr_directory := ""; gr_installed := 1;
         gr_installer_slug := slug +:+ "-" +:+ runner;
         gr_configpath := configpath |} in
    let w' := (add_game online mario "/roms/mario.nes" nes_world).2 in
    write_game_config online slug runner (filled "/roms/mario.nes" items) =
      Ok configpath ∧
    db_add_game online (games_db nes_world) row = Ok 1 ∧
    games_db w' = games_db nes_world ++ [row] ∧
    EvWriteConfig slug runner (filled "/roms/mario.nes" items) ∈ trace w' ∧
    (∀ key, items !! key = Some "rom" →
            filled "/roms/mario.nes" items !! key = Some "/roms/mario.nes") ∧
    (∀ key value, items !! key = Some value → value ≠ "rom" →
                  filled "/roms/mario.nes" items !! key = Some value) ∧
    (∀ key, items !! key = None →
            filled "/roms/mario.nes" items !! key = None).
Proof.
  split; [vm_compute; reflexivity|].
  apply (persisted_row online mario "/roms/mario.nes" nes_world 1).
  vm_compute. reflexivity.
Defined.

(** * Further properties of the dialog *)

(** ** The results of the search *)

Section Results.

Context (ext : Externals).

Lemma od_set_keys {V} key (value : V) d :
  (od_set key value d).*1 =
    if decide (key ∈ d.*1) then d.*1 else d.*1 ++ [key].
Proof.
  induction d as [|[key' value'] rest IH].
  - destruct (decide (key ∈ [].*1)) as [Hin|_]; [|done].
    by apply elem_of_nil in Hin.
  - cbn [od_set fmap list_fmap fst].
    destruct (decide (key = key')) as [->|Hne]; cbn [fmap list_fmap fst].
    + rewrite decide_True; [done|]. left.
    + rewrite IH. destruct (decide (key ∈ rest.*1)) as [Hin|Hnin].
      * rewrite decide_True; [done|]. by right.
      * rewrite decide_False; [done|].
        intros [?|?]%elem_of_cons; done.
Qed.

Lemma foldl_od_set_keys (f : string → list RomSet) files results :
  (foldl (λ results filename, od_set filename (f filename) results)
     results files).*1 =
    results.*1 ++ filter (λ filename, filename ∉ results.*1) (first_seen files).
Proof.
  revert results. induction files as [|file rest IH]; intros results.
  - simpl. by rewrite app_nil_r.
  - cbn [foldl first_seen]. rewrite IH, od_set_keys.
    destruct (decide (file ∈ results.*1)) as [Hin|Hnin].
    + rewrite filter_cons_False by (intros Hn; by apply Hn).
      f_equal. rewrite list_filter_filter. apply list_filter_iff.
      intros other. split; [|by intros [? _]].
      intros Hn. split; [done|]. by intros ->.
    + rewrite filter_cons_True by done. rewrite <- app_assoc. simpl.
      do 2 f_equal. rewrite list_filter_filter. apply list_filter_iff.
      intros other. rewrite elem_of_app, list_elem_of_singleton. tauto.
Qed.

Lemma elem_of_first_seen files filename :
  filename ∈ first_seen files ↔ filename ∈ files.
Proof.
  induction files as [|file rest IH]; simpl; [done|].
  rewrite !elem_of_cons, list_elem_of_filter, IH.
  destruct (decide (filename = file)); tauto.
Qed.

Lemma first_seen_NoDup files : NoDup (first_seen files).
Proof.
  induction files as [|file rest IH]; simpl; [constructor|].
  constructor.
  - rewrite list_elem_of_filter. by intros [? _].
  - by apply NoDup_filter.
Qed.

(** X1: the results of the search have one entry per distinct file, in
    the order in which the files first occur in the batch, and the entry of
    a file is what the search found for it. *)
Theorem results_in_first_seen_order files w :
  ∃ results w',
    search_checksums ext files w = (Ok results, w') ∧
    results.*1 = first_seen files ∧
    NoDup results.*1 ∧
    (∀ filename, filename ∈ results.*1 ↔ filename ∈ files) ∧
    (∀ filename result,
       (filename, result) ∈ results →
       (search_file ext (get_path_cache ext) filename w).1 = Ok result).
Proof.
  rewrite search_checksums_outcome. eexists _, _. split; [done|].
  assert ((search_results ext files).*1 = first_seen files) as Hkeys.
  { unfold search_results.
    rewrite (foldl_od_set_keys (λ filename, (outcome ext filename).1)).
    simpl. induction (first_seen files) as [|file rest IH]; [done|].
    rewrite filter_cons_True by apply not_elem_of_nil. by rewrite IH. }
  split; [done|]. rewrite Hkeys. split; [apply first_seen_NoDup|].
  split; [apply elem_of_first_seen|].
  intros filename result Hin. rewrite search_file_outcome. cbn [fst].
  f_equal.
  assert (filename ∈ files) as Hfile.
  { apply elem_of_first_seen. rewrite <- Hkeys.
    apply list_elem_of_fmap. by exists (filename, result). }
  pose proof (search_results_get ext files filename Hfile) as Hget.
  assert (∀ d : list (string * list RomSet),
            NoDup d.*1 → (filename, result) ∈ d →
            od_get filename d = Some result) as Hod.
  { clear. intros d. induction d as [|[key value] rest IH]; intros Hnd Hin.
    - by apply elem_of_nil in Hin.
    - simpl in *. apply NoDup_cons in Hnd as [Hkey Hnd].
      apply elem_of_cons in Hin as [[= <- <-]|Hin].
      + by rewrite decide_True.
      + rewrite decide_False; [by apply IH|]. intros ->. apply Hkey.
        apply list_elem_of_fmap. by exists (key, result). }
  rewrite Hod in Hget; [congruence| |done].
  rewrite Hkeys. apply first_seen_NoDup.
Qed.

Lemma outcome_search_events filename :
  Forall (search_event filename) (outcome ext filename).2.
Proof.
  unfold outcome.
  destruct (installed_id (get_path_cache ext) filename);
    [by repeat constructor|].
  unfold lookup_events, checksum_event.
  destruct (checksum ext filename);
    destruct (endswith (lower filename) ".zip"); by repeat constructor.
Qed.

Lemma search_file_events cache filename w :
  ∃ result evs,
    search_file ext cache filename w = (Ok result, log evs w) ∧
    Forall (search_event filename) evs.
Proof.
  unfold search_file, try_finally, try_except, show_progress. mrun.
  destruct (bool_decide (filename ∈ cache.*2)).
  - destruct (installed_result ext cache filename None) as [result|];
      mrun; rewrite ?log_log;
      (eexists _, _; split; [reflexivity|by repeat constructor]).
  - mrun. destruct (endswith (lower filename) ".zip"); mrun.
    + destruct (get_md5_in_zip ext filename) as [md5sum|error]; mrun.
      2:{ rewrite ?log_log.
          eexists _, _. split; [reflexivity|by repeat constructor]. }
      destruct (search_tosec_by_md5 ext md5sum) as [[|rs result]|error];
        mrun; rewrite ?log_log;
        (eexists _, _; split; [reflexivity|by repeat constructor]).
    + destruct (get_md5_hash ext filename) as [md5sum|error]; mrun.
      2:{ rewrite ?log_log.
          eexists _, _. split; [reflexivity|by repeat constructor]. }
      destruct (search_tosec_by_md5 ext md5sum) as [[|rs result]|error];
        mrun; rewrite ?log_log;
        (eexists _, _; split; [reflexivity|by repeat constructor]).
Qed.

(** X2: once [get_path_cache()] has returned, the loop of
    [search_checksums], which runs on the worker thread, always comes to
    its end, whatever cache it was given and whatever the checksum
    functions and the catalog raise; it changes nothing of the dialog, the
    store or the database, and all it does is post progress messages,
    compute checksums and query the catalog, each time for a file of the
    batch.  The call of [get_path_cache] itself comes before the loop, out
    of every [try], and is no part of the statement. *)
Theorem search_only_reports_progress cache files results w :
  ∃ results' evs,
    search_loop ext cache files results w = (Ok results', log evs w) ∧
    Forall (λ ev, ∃ filename, filename ∈ files ∧ search_event filename ev) evs.
Proof.
  revert results w. induction files as [|file rest IH]; intros results w.
  - exists results, []. split; [by rewrite log_nil|constructor].
  - cbn [search_loop]. rewrite run_bind.
    destruct (search_file_events cache file w) as (result & evs & -> & Hevs).
    destruct (IH (od_set file result results) (log evs w))
      as (results' & evs' & -> & Hevs').
    exists results', (evs ++ evs'). split; [by rewrite log_log|].
    apply Forall_app. split.
    + eapply Forall_impl; [exact Hevs|].
      intros ev Hev. exists file. split; [left|done].
    + eapply Forall_impl; [exact Hevs'|].
      intros ev (filename & Hin & Hev). exists filename. split; [by right|done].
Qed.

(** X3: whatever happens to a file during the search, found installed,
    checksum or lookup failing, or identified, the first thing posted for
    it is "Looking for installed game..." and the last is the empty
    progress message of the [finally] clause. *)
Theorem progress_always_cleared filename w :
  ∃ result evs,
    search_file ext (get_path_cache ext) filename w =
      (Ok result,
       log (EvProgress filename "Looking for installed game..." ::
            evs ++ [EvProgress filename ""]) w).
Proof.
  rewrite search_file_outcome. unfold outcome.
  destruct (installed_id (get_path_cache ext) filename).
  - by eexists _, [].
  - destruct (checksum ext filename).
    + by eexists _, [_; _; _; _].
    + by eexists _, [_; _].
Qed.

(** X4: when the checksum of a file that is not installed cannot be
    computed, the exception is recorded as the file's result and the
    catalog is not queried for it. *)
Theorem checksum_failure_skips_lookup filename error w :
  filename ∉ (get_path_cache ext).*2 →
  checksum ext filename = Raise error →
  search_file ext (get_path_cache ext) filename w =
    (Ok [error_rom_set error],
     log [EvProgress filename "Looking for installed game...";
          EvProgress filename "Calculating checksum...";
          checksum_event filename;
          EvProgress filename ""] w).
Proof.
  intros Hnin Hsum. rewrite search_file_outcome. unfold outcome.
  apply installed_id_None in Hnin. by rewrite Hnin, Hsum.
Qed.

Lemma installed_id_last pre id filename post :
  filename ∉ post.*2 →
  installed_id (pre ++ (id, filename) :: post) filename = Some id.
Proof.
  intros Hpost. apply installed_id_None in Hpost.
  induction pre as [|[id' path] rest IH]; simpl.
  - by rewrite Hpost, decide_True.
  - by rewrite IH.
Qed.

(** X5: when several games of the path cache were installed from the
    same file, the search resolves the file to the last of them in the
    order of the cache. *)
Theorem last_cached_game_wins pre id filename post w :
  get_path_cache ext = pre ++ (id, filename) :: post →
  filename ∉ post.*2 →
  search_file ext (get_path_cache ext) filename w =
    (Ok [installed_rom_set (load_game ext id)],
     log [EvProgress filename "Looking for installed game...";
          EvProgress filename ""] w).
Proof.
  intros Hcache Hpost. rewrite search_file_outcome.
  rewrite (outcome_installed ext filename id); [done|].
  rewrite Hcache. by apply installed_id_last.
Qed.

End Results.

(** ** Which checksum is computed *)

Lemma lower_app a b : lower (a +:+ b) = lower a +:+ lower b.
Proof. induction a as [|c a IH]; simpl; [done|]. by rewrite IH. Qed.

Lemma endswith_cons c s suffix :
  endswith (String c s) suffix =
    if String.eqb (String c s) suffix then true else endswith s suffix.
Proof. reflexivity. Qed.

Lemma endswith_refl s : endswith s s = true.
Proof.
  destruct s; [done|]. by rewrite endswith_cons, String.eqb_refl.
Qed.

Lemma endswith_app a b : endswith (a +:+ b) b = true.
Proof.
  induction a as [|c a IH]; [apply endswith_refl|].
  change (String c a +:+ b) with (String c (a +:+ b)).
  rewrite endswith_cons. by case_match.
Qed.

Lemma endswith_inv s suffix :
  endswith s suffix = true → ∃ stem, s = stem +:+ suffix.
Proof.
  induction s as [|c s IH].
  - change (endswith "" suffix)
      with (if String.eqb "" suffix then true else false).
    destruct (String.eqb "" suffix) eqn:Heq; [|done].
    apply String.eqb_eq in Heq as <-. by exists "".
  - rewrite endswith_cons.
    destruct (String.eqb (String c s) suffix) eqn:Heq.
    + apply String.eqb_eq in Heq as <-. by exists "".
    + intros [stem ->]%IH. by exists (String c stem).
Qed.

Lemma lower_app_inv s a b :
  lower s = a +:+ b → ∃ x y, s = x +:+ y ∧ lower x = a ∧ lower y = b.
Proof.
  revert s. induction a as [|c a IH]; intros s; simpl.
  - intros Hs. by exists "", s.
  - destruct s as [|d s]; simpl; [done|].
    intros [= Hc (x & y & -> & Hx & Hy)%IH].
    exists (String d x), y. simpl. by rewrite Hc, Hx.
Qed.

Lemma endswith_lower_zip filename :
  endswith (lower filename) ".zip" = true ↔ named_zip filename.
Proof.
  split.
  - intros [stem Hstem]%endswith_inv.
    apply lower_app_inv in Hstem as (x & y & -> & _ & Hy). by exists x, y.
  - intros (stem & suffix & -> & Hsuffix).
    rewrite lower_app, Hsuffix. apply endswith_app.
Qed.

Section Checksum.

Context (ext : Externals).

(** X6: for a file that is not installed the search computes exactly one
    checksum: of the entry inside the archive when the file name ends in
    [.zip], whatever the case of the letters, and of the file itself
    otherwise. *)
Theorem zip_extension_selects_checksum filename w :
  filename ∉ (get_path_cache ext).*2 →
  ∃ result evs,
    Forall (λ ev, ¬ hashes filename ev) evs ∧
    ((named_zip filename ∧
      search_file ext (get_path_cache ext) filename w =
        (Ok result,
         log ([EvProgress filename "Looking for installed game...";
               EvProgress filename "Calculating checksum...";
               EvMd5InZip filename] ++ evs) w)) ∨
     (¬ named_zip filename ∧
      search_file ext (get_path_cache ext) filename w =
        (Ok result,
         log ([EvProgress filename "Looking for installed game...";
               EvProgress filename "Calculating checksum...";
               EvMd5Hash filename] ++ evs) w))).
Proof.
  intros Hnin. rewrite search_file_outcome. unfold outcome.
  apply installed_id_None in Hnin. rewrite Hnin.
  unfold lookup_events, checksum_event.
  pose proof (endswith_lower_zip filename) as Hzip.
  destruct (endswith (lower filename) ".zip").
  - destruct (checksum ext filename);
      eexists _, _; (split; [|left; split; [by apply Hzip|reflexivity]]);
      repeat constructor; by intros [?|?].
  - assert (¬ named_zip filename) as Hn by (intros H%Hzip; done).
    destruct (checksum ext filename);
      eexists _, _; (split; [|right; split; [done|reflexivity]]);
      repeat constructor; by intros [?|?].
Qed.

End Checksum.

(** ** The outcomes of one candidate *)

Section Candidate.

Context (ext : Externals).

(** A candidate of a known platform is imported exactly when [add_game]
    returns. *)
Lemma import_rom_known_platform rom_set filename launch_game w rom roms p :
  rs_error rom_set = None →
  rs_roms rom_set = rom :: roms →
  guess_platform ext rom_set = Some p →
  import_rom ext rom_set filename launch_game w =
    match add_game ext rom_set filename
            (with_platform (Some p) (log (label_events filename rom_set rom) w))
    with
    | (Ok id, w1) =>
        (Ok true, log (imported_events launch_game (load_game ext id)) w1)
    | (Raise ex, w1) => (Ok false, log (failure_events filename ex) w1)
    end.
Proof.
  intros He Hr Hg. unfold import_rom, try_except, display_game_info.
  rewrite He, Hr. mrun. rewrite Hg. mrun.
  replace (with_platform (Some p)
             (log [EvCategoryLabel filename (rs_category rom_set)]
                (log [EvDescriptionLabel filename (rs_name rom_set)]
                   (log [EvChecksumLabel filename (md5 rom)]
                      (log [EvHideProgress filename] w)))))
    with (with_platform (Some p) (log (label_events filename rom_set rom) w))
    by world_eq.
  destruct (add_game ext rom_set filename _) as [[id|ex] w1].
  - unfold imported_events, game_launch. destruct launch_game; mrun;
      unfold mret, M_ret; by rewrite ?log_log.
  - mrun. unfold failure_events, mret, M_ret. by rewrite ?log_log.
Qed.

(** X7: a candidate whose platform is known but has no entry in
    [DEFAULT_INSTALLERS] is reported as failed with the message naming the
    platform; no config is written and no row inserted. *)
Theorem missing_installer_fails rom_set filename launch_game w rom roms p :
  rs_error rom_set = None →
  rs_roms rom_set = rom :: roms →
  guess_platform ext rom_set = Some p →
  DEFAULT_INSTALLERS ext !! p = None →
  import_rom ext rom_set filename launch_game w =
    (Ok false,
     with_platform (Some p)
       (log (label_events filename rom_set rom ++
             [EvLogInfo ("Installing " +:+
                         clean_rom_name ext (rs_name rom_set));
              EvInstallerLookup (Some p)] ++
             failure_events filename (no_installer p)) w)).
Proof.
  intros He Hr Hg Hd.
  rewrite (import_rom_known_platform _ _ _ _ _ _ _ He Hr Hg).
  unfold add_game. mrun.
  change (Some p ≫= (λ p0 : string, DEFAULT_INSTALLERS ext !! p0))
    with (DEFAULT_INSTALLERS ext !! p).
  rewrite Hd. mrun. unfold raise. world_eq.
Qed.

(** X8: when writing the config raises, the candidate is reported as
    failed with that exception's message; the database is not called and
    keeps its rows, and no media is downloaded. *)
Theorem config_write_failure rom_set filename launch_game w rom roms p
    runner items ex :
  rs_error rom_set = None →
  rs_roms rom_set = rom :: roms →
  guess_platform ext rom_set = Some p →
  template ext (heap w) p = Some (runner, items) →
  write_game_config ext (slugify ext (clean_rom_name ext (rs_name rom_set)))
    runner (filled filename items) = Raise ex →
  let r := import_rom ext rom_set filename launch_game w in
  r.1 = Ok false ∧
  games_db r.2 = games_db w ∧
  trace r.2 =
    trace w ++ label_events filename rom_set rom ++
    [EvLogInfo ("Installing " +:+ clean_rom_name ext (rs_name rom_set));
     EvInstallerLookup (Some p);
     EvWriteConfig (slugify ext (clean_rom_name ext (rs_name rom_set)))
       runner (filled filename items)] ++
    failure_events filename ex.
Proof.
  intros He Hr Hg Ht Hcfg. cbv zeta.
  rewrite (import_rom_known_platform _ _ _ _ _ _ _ He Hr Hg).
  rewrite (add_game_run ext rom_set filename
             (with_platform (Some p) (log (label_events filename rom_set rom) w))
             p runner items eq_refl Ht).
  cbv zeta. rewrite Hcfg. cbn [fst snd]. split; [done|]. split; [done|].
  mred. by rewrite <- !app_assoc.
Qed.

(** X9: when the database insert raises, the candidate is reported as
    failed with that exception's message; the config is already written,
    no row is there, no media is downloaded and nothing is announced. *)
Theorem database_insert_failure rom_set filename launch_game w rom roms p
    runner items configpath ex :
  rs_error rom_set = None →
  rs_roms rom_set = rom :: roms →
  guess_platform ext rom_set = Some p →
  template ext (heap w) p = Some (runner, items) →
  write_game_config ext (slugify ext (clean_rom_name ext (rs_name rom_set)))
    runner (filled filename items) = Ok configpath →
  db_add_game ext (games_db w) (new_row ext rom_set runner configpath) =
    Raise ex →
  let r := import_rom ext rom_set filename launch_game w in
  r.1 = Ok false ∧
  games_db r.2 = games_db w ∧
  trace r.2 =
    trace w ++ label_events filename rom_set rom ++
    [EvLogInfo ("Installing " +:+ clean_rom_name ext (rs_name rom_set));
     EvInstallerLookup (Some p);
     EvWriteConfig (slugify ext (clean_rom_name ext (rs_name rom_set)))
       runner (filled filename items);
     EvAddGame (new_row ext rom_set runner configpath)] ++
    failure_events filename ex.
Proof.
  intros He Hr Hg Ht Hcfg Hdb. cbv zeta.
  rewrite (import_rom_known_platform _ _ _ _ _ _ _ He Hr Hg).
  rewrite (add_game_run ext rom_set filename
             (with_platform (Some p) (log (label_events filename rom_set rom) w))
             p runner items eq_refl Ht).
  cbv zeta. rewrite Hcfg. mred. rewrite Hdb. cbn [fst snd].
  split; [done|]. split; [done|]. mred. by rewrite <- !app_assoc.
Qed.

Lemma add_game_rows rom_set filepath w :
  let r := add_game ext rom_set filepath w in
  (games_db r.2 = games_db w ∧ ∃ ex, r.1 = Raise ex) ∨
  ∃ runner configpath,
    games_db r.2 = games_db w ++ [new_row ext rom_set runner configpath].
Proof.
  cbv zeta.
  destruct (decide (games_db (add_game ext rom_set filepath w).2 =
                    games_db w)) as [Heq|Hne].
  - left. split; [done|].
    destruct (add_game ext rom_set filepath w) as [[id|ex] w'] eqn:Hrun;
      [|by eexists].
    exfalso. refine (add_game_ok_inserted ext rom_set filepath w id _ _).
    + by rewrite Hrun.
    + by rewrite Hrun.
  - right.
    destruct (add_game_inserted ext rom_set filepath w Hne)
      as (p & runner & items & configpath & id & _ & _ & _ & _ & ->).
    by exists runner, configpath.
Qed.

(** X10: one call of [import_rom] inserts at most one row: none for a
    rom set that carries an error or no rom, exactly one when it returns
    [True], and the row is the one of that rom set. *)
Theorem import_inserts_at_most_one_row rom_set filename launch_game w :
  let r := import_rom ext rom_set filename launch_game w in
  (games_db r.2 = games_db w ∧ r.1 = Ok false) ∨
  ∃ runner configpath,
    games_db r.2 = games_db w ++ [new_row ext rom_set runner configpath] ∧
    rs_error rom_set = None ∧ rs_roms rom_set ≠ [].
Proof.
  cbv zeta.
  destruct (rs_error rom_set) as [error|] eqn:He.
  { left. unfold import_rom, try_except. rewrite He. by mrun. }
  destruct (rs_roms rom_set) as [|rom roms] eqn:Hr.
  { left. unfold import_rom, try_except. rewrite He, Hr. by mrun. }
  destruct (guess_platform ext rom_set) as [p|] eqn:Hg.
  2:{ left. unfold import_rom, try_except, display_game_info.
      rewrite He, Hr. mrun. rewrite Hg. by mrun. }
  rewrite (import_rom_known_platform _ _ _ _ _ _ _ He Hr Hg).
  match goal with
  | |- context [add_game ext rom_set filename ?W] => set (w0 := W)
  end.
  destruct (add_game_rows rom_set filename w0) as [[Hdb [ex Hex]]|Hrow].
  - left. destruct (add_game ext rom_set filename w0) as [[id|ex'] w1];
      [done|]. by cbn [fst snd] in *.
  - right. destruct Hrow as (runner & configpath & Hrow).
    exists runner, configpath. split; [|done].
    destruct (add_game ext rom_set filename w0) as [[id|ex'] w1];
      by cbn [fst snd] in *.
Qed.


Lemma import_rom_true_row rom_set filename launch_game w w' :
  import_rom ext rom_set filename launch_game w = (Ok true, w') →
  ∃ runner configpath,
    games_db w' = games_db w ++ [new_row ext rom_set runner configpath].
Proof.
  intros Hrun.
  destruct (rs_error rom_set) as [error|] eqn:He.
  { assert ((import_rom ext rom_set filename launch_game w).1 = Ok false)
      as Hfalse by (unfold import_rom, try_except; rewrite He; by mrun).
    by rewrite Hrun in Hfalse. }
  destruct (rs_roms rom_set) as [|rom roms] eqn:Hr.
  { assert ((import_rom ext rom_set filename launch_game w).1 = Ok false)
      as Hfalse by (unfold import_rom, try_except; rewrite He, Hr; by mrun).
    by rewrite Hrun in Hfalse. }
  destruct (guess_platform ext rom_set) as [p|] eqn:Hg.
  2:{ assert ((import_rom ext rom_set filename launch_game w).1 = Ok false)
        as Hfalse.
      { unfold import_rom, try_except, display_game_info.
        rewrite He, Hr. mrun. rewrite Hg. by mrun. }
      by rewrite Hrun in Hfalse. }
  rewrite (import_rom_known_platform _ _ _ _ _ _ _ He Hr Hg) in Hrun.
  match type of Hrun with
  | context [add_game ext rom_set filename ?W] => set (w0 := W) in *
  end.
  destruct (add_game_rows rom_set filename w0) as [[_ [ex Hex]]|Hrow].
  - destruct (add_game ext rom_set filename w0) as [[id|ex'] w1]; [done|].
    by injection Hrun.
  - destruct Hrow as (runner & configpath & Hrow).
    exists runner, configpath.
    destruct (add_game ext rom_set filename w0) as [[id|ex'] w1];
      [|by injection Hrun].
    injection Hrun as <-. by cbn [fst snd] in *.
Qed.

(** X11: nothing looks for an earlier import of the same file: importing
    the same candidate twice, both times with success, leaves two rows in
    the database, with the same name and the same slug. *)
Theorem same_candidate_twice_two_rows rom_set filename launch1 launch2
    w w1 w2 :
  import_rom ext rom_set filename launch1 w = (Ok true, w1) →
  import_rom ext rom_set filename launch2 w1 = (Ok true, w2) →
  ∃ row1 row2,
    games_db w2 = games_db w ++ [row1; row2] ∧
    gr_name row1 = clean_rom_name ext (rs_name rom_set) ∧
    gr_name row2 = gr_name row1 ∧
    gr_slug row2 = gr_slug row1.
Proof.
  intros (runner1 & path1 & Hdb1)%import_rom_true_row
         (runner2 & path2 & Hdb2)%import_rom_true_row.
  exists (new_row ext rom_set runner1 path1), (new_row ext rom_set runner2 path2).
  split; [by rewrite Hdb2, Hdb1, <- app_assoc|done].
Qed.

(** X12: [self.platform] carries nothing from one candidate to the next:
    for a candidate with a rom, [import_rom] does the same whatever
    platform an earlier candidate left behind. *)
Theorem platform_not_carried_over rom_set filename launch_game w p0 :
  rs_error rom_set = None →
  rs_roms rom_set ≠ [] →
  import_rom ext rom_set filename launch_game (with_platform p0 w) =
    import_rom ext rom_set filename launch_game w.
Proof.
  intros He Hr. destruct (rs_roms rom_set) as [|rom roms] eqn:Hroms; [done|].
  unfold import_rom, try_except, display_game_info. rewrite He, Hroms.
  mrun. reflexivity.
Qed.

(** ** When every import fails *)

Lemma working_no_signal ev : working_event ev → no_signal ev.
Proof. destruct ev; try done; intros _; by split. Qed.

Lemma import_result_false filename result launch_game w w' :
  import_result ext filename result launch_game w = (Ok false, w') →
  ∃ evs, trace w' = trace w ++ evs ∧ Forall no_signal evs.
Proof.
  revert w. induction result as [|rom_set rest IH]; intros w.
  - intros [= <-]. exists []. by rewrite app_nil_r.
  - cbn [import_result]. rewrite run_bind.
    destruct (import_rom_summary ext rom_set filename launch_game w)
      as (w1 & _ & [Hok|[Hfail|Hnone]]).
    + destruct Hok as (-> & _). by mred.
    + destruct Hfail as (-> & ex & evs & Htr & Hwork). mred.
      intros (evs' & Htr' & Hsig)%IH.
      exists (evs ++ failure_events filename ex ++ evs').
      split; [by rewrite Htr', Htr, <- !app_assoc|].
      apply Forall_app. split.
      { eapply Forall_impl; [done|]. apply working_no_signal. }
      apply Forall_app. split; [|done]. by repeat constructor.
    + destruct Hnone as (-> & _ & _ & ->). mred.
      intros (evs' & Htr' & Hsig)%IH.
      exists (EvHideProgress filename :: evs').
      split; [rewrite Htr'; mred; by rewrite <- app_assoc|].
      constructor; [by split|done].
Qed.

(** X13: with "Launch game" ticked, no installed game in the results and
    every import failing, every file of the results is gone through,
    nothing is announced or launched, and the dialog stays open. *)
Theorem all_failed_dialog_stays_open results w w' :
  auto_launch_button w = true →
  find_installed results = None →
  all_failed ext results w w' →
  search_result_finished ext results None w = (Ok tt, w') ∧
  ∃ evs, trace w' = trace w ++ evs ∧ Forall no_signal evs.
Proof.
  intros Hb Hfind Hall. split.
  - unfold search_result_finished. rewrite run_bind. mred.
    rewrite Hb, Hfind.
    rewrite <- (app_nil_r results).
    by rewrite (import_results_all_failed ext _ _ _ _ Hall).
  - clear Hb Hfind.
    induction Hall as [w|filename result rest w w1 w2 Hrun _ IH].
    + exists []. by rewrite app_nil_r.
    + apply import_result_false in Hrun as (evs1 & Htr1 & Hsig1).
      destruct IH as (evs2 & Htr2 & Hsig2).
      exists (evs1 ++ evs2). split; [by rewrite Htr2, Htr1, <- app_assoc|].
      by apply Forall_app.
Qed.

End Candidate.

(** ** Building the list of files *)

Lemma new_widget_at l suf wd pl cl dl tl el :
  new_widget wd (mkGui (l ++ suf) pl cl dl tl el) =
    ((length l + length suf)%nat, mkGui (l ++ (suf ++ [wd])) pl cl dl tl el).
Proof. unfold new_widget. simpl. by rewrite length_app, <- app_assoc. Qed.

Lemma alter_widget_at f l suf i pl cl dl tl el :
  alter_widget f (length l + i) (mkGui (l ++ suf) pl cl dl tl el) =
    mkGui (l ++ alter f i suf) pl cl dl tl el.
Proof. unfold alter_widget. simpl. by rewrite alter_app_r. Qed.

Lemma set_description_label_at f label ws pl cl dl tl el :
  set_description_label f label (mkGui ws pl cl dl tl el) =
    mkGui ws pl cl (<[f := label]> dl) tl el.
Proof. reflexivity. Qed.

Lemma set_progress_label_at f label ws pl cl dl tl el :
  set_progress_label f label (mkGui ws pl cl dl tl el) =
    mkGui ws (<[f := label]> pl) cl dl tl el.
Proof. reflexivity. Qed.

Lemma set_checksum_label_at f label ws pl cl dl tl el :
  set_checksum_label f label (mkGui ws pl cl dl tl el) =
    mkGui ws pl (<[f := label]> cl) dl tl el.
Proof. reflexivity. Qed.

Lemma set_category_label_at f label ws pl cl dl tl el :
  set_category_label f label (mkGui ws pl cl dl tl el) =
    mkGui ws pl cl dl (<[f := label]> tl) el.
Proof. reflexivity. Qed.

Lemma set_error_label_at f label ws pl cl dl tl el :
  set_error_label f label (mkGui ws pl cl dl tl el) =
    mkGui ws pl cl dl tl (<[f := label]> el).
Proof. reflexivity. Qed.

Ltac gui_step :=
  first [ rewrite new_widget_at
        | rewrite alter_widget_at
        | rewrite set_description_label_at
        | rewrite set_progress_label_at
        | rewrite set_checksum_label_at
        | rewrite set_category_label_at
        | rewrite set_error_label_at ];
  cbv beta iota zeta;
  cbn [length app alter list_alter].

Lemma add_file_row_run pre rows mid file_path pl cl dl tl el :
  let n := (length pre + S (length mid))%nat in
  add_file_row (length pre) file_path
    (mkGui (pre ++ WListBox rows :: mid) pl cl dl tl el) =
    mkGui (pre ++ WListBox (rows ++ [n]) :: (mid ++ row_widgets n file_path))
      (<[file_path := (n + 4)%nat]> pl)
      (<[file_path := (n + 5)%nat]> cl)
      (<[file_path := (n + 2)%nat]> dl)
      (<[file_path := (n + 6)%nat]> tl)
      (<[file_path := (n + 7)%nat]> el).
Proof.
  intros n.
  assert (length (pre ++ WListBox rows :: mid) = n) as Hlen.
  { rewrite length_app. simpl. done. }
  set (l := pre ++ WListBox rows :: mid) in *.
  rewrite <- (app_nil_r l) at 1.
  unfold add_file_row, pack_start, row_add.
  repeat gui_step.
  rewrite Hlen, Nat.add_0_r. unfold listbox_add, alter_widget, row_widgets.
  cbn [widgets progress_labels checksum_labels description_labels
       category_labels error_labels].
  f_equal. subst l. rewrite <- app_assoc.
  rewrite alter_app_r_alt by lia. rewrite Nat.sub_diag. reflexivity.
Qed.

Lemma add_file_rows_run files pre rows mid pl cl dl tl el :
  let n := (length pre + S (length mid))%nat in
  foldl (λ g file_path, add_file_row (length pre) file_path g)
    (mkGui (pre ++ WListBox rows :: mid) pl cl dl tl el) files =
    mkGui (pre ++ WListBox (rows ++ row_ids n files) ::
             (mid ++ rows_widgets n files))
      (label_dict 4 n files pl) (label_dict 5 n files cl)
      (label_dict 2 n files dl) (label_dict 6 n files tl)
      (label_dict 7 n files el).
Proof.
  revert rows mid pl cl dl tl el.
  induction files as [|file_path rest IH]; intros rows mid pl cl dl tl el n.
  - simpl. by rewrite !app_nil_r.
  - cbn [foldl]. rewrite add_file_row_run. cbv zeta. rewrite IH. cbv zeta.
    fold n.
    replace (length pre + S (length (mid ++ row_widgets n file_path)))%nat
      with (n + 8)%nat by (rewrite length_app; simpl; lia).
    cbn [row_ids rows_widgets label_dict]. by rewrite <- !app_assoc.
Qed.

Lemma get_file_labels_listbox_run files g :
  let n := S (length (widgets g)) in
  get_file_labels_listbox files g =
    (length (widgets g),
     mkGui (widgets g ++ WListBox (row_ids n files) :: rows_widgets n files)
       (label_dict 4 n files (progress_labels g))
       (label_dict 5 n files (checksum_labels g))
       (label_dict 2 n files (description_labels g))
       (label_dict 6 n files (category_labels g))
       (label_dict 7 n files (error_labels g))).
Proof.
  destruct g as [ws pl cl dl tl el]. cbv zeta.
  unfold get_file_labels_listbox, new_widget.
  cbn [widgets progress_labels checksum_labels description_labels
       category_labels error_labels].
  rewrite (add_file_rows_run files ws [] [] pl cl dl tl el). cbv zeta.
  cbn [length app]. by rewrite Nat.add_1_r.
Qed.

Lemma label_dict_notin k n files (d : gmap string nat) f :
  f ∉ files → label_dict k n files d !! f = d !! f.
Proof.
  revert n d. induction files as [|file rest IH]; intros n d Hnin; [done|].
  apply not_elem_of_cons in Hnin as [Hne Hnin]. cbn [label_dict].
  rewrite IH by done. by rewrite lookup_insert_ne.
Qed.

Lemma label_dict_last k n pre f post (d : gmap string nat) :
  f ∉ post →
  label_dict k n (pre ++ f :: post) d !! f =
    Some (n + 8 * length pre + k)%nat.
Proof.
  intros Hpost. revert n d. induction pre as [|file rest IH]; intros n d.
  - cbn [app label_dict length]. rewrite label_dict_notin by done.
    rewrite lookup_insert_eq. f_equal. lia.
  - cbn [app label_dict length]. rewrite IH. f_equal. lia.
Qed.

Lemma label_dict_is_Some k n files (d : gmap string nat) f :
  is_Some (label_dict k n files d !! f) ↔ f ∈ files ∨ is_Some (d !! f).
Proof.
  revert n d. induction files as [|file rest IH]; intros n d.
  - cbn [label_dict]. split; [by right|].
    intros [Hin|?]; [by apply elem_of_nil in Hin|done].
  - cbn [label_dict]. rewrite IH, elem_of_cons.
    destruct (decide (f = file)) as [->|Hne].
    + rewrite lookup_insert_eq. split; [by left; left|by right].
    + rewrite lookup_insert_ne by done. tauto.
Qed.

Lemma row_ids_length n files : length (row_ids n files) = length files.
Proof.
  revert n. induction files as [|file rest IH]; intros n; [done|].
  cbn [row_ids length]. by rewrite IH.
Qed.

Lemma row_ids_lookup n files i :
  (i < length files)%nat → row_ids n files !! i = Some (n + 8 * i)%nat.
Proof.
  revert n i. induction files as [|file rest IH]; intros n i Hi;
    cbn [length] in Hi; [lia|].
  destruct i as [|i]; cbn [row_ids].
  - simpl. f_equal. lia.
  - simpl. rewrite IH by lia. f_equal. lia.
Qed.

Lemma rows_widgets_length n files :
  length (rows_widgets n files) = (8 * length files)%nat.
Proof.
  revert n. induction files as [|file rest IH]; intros n; [done|].
  cbn [rows_widgets]. rewrite length_app, IH. simpl. lia.
Qed.

Lemma rows_widgets_app n pre post :
  rows_widgets n (pre ++ post) =
    rows_widgets n pre ++ rows_widgets (n + 8 * length pre) post.
Proof.
  revert n. induction pre as [|file rest IH]; intros n.
  - simpl. by rewrite Nat.add_0_r.
  - cbn [app rows_widgets length]. rewrite IH, <- app_assoc.
    do 3 f_equal. lia.
Qed.

(** The eight widgets of the row built for the file at position
    [length pre]. *)
Lemma row_widgets_lookup (ws : list Widget) rows pre f post j :
  let m := (S (length ws) + 8 * length pre)%nat in
  (j < 8)%nat →
  (ws ++ WListBox rows :: rows_widgets (S (length ws)) (pre ++ f :: post))
    !! (m + j)%nat = row_widgets m f !! j.
Proof.
  intros m Hj. rewrite rows_widgets_app. cbn [rows_widgets]. fold m.
  rewrite lookup_app_r by lia.
  replace (m + j - length ws)%nat with (S (8 * length pre + j)) by lia.
  rewrite lookup_cons. rewrite lookup_app_r; rewrite rows_widgets_length; [|lia].
  replace (8 * length pre + j - 8 * length pre)%nat with j by lia.
  apply lookup_app_l. simpl. lia.
Qed.

Lemma row_tree g pre f post :
  let r := get_file_labels_listbox (pre ++ f :: post) g in
  let m := (S (length (widgets g)) + 8 * length pre)%nat in
  widgets r.2 !! m = Some (WListBoxRow (Some (m + 1)%nat)) ∧
  widgets r.2 !! (m + 1)%nat =
    Some (WBox [m + 2; m + 3; m + 4; m + 5; m + 6; m + 7]%nat) ∧
  widgets r.2 !! (m + 2)%nat = Some (WLabel "" false) ∧
  widgets r.2 !! (m + 3)%nat = Some (WLabel f false) ∧
  widgets r.2 !! (m + 4)%nat = Some (WLabel "" false) ∧
  widgets r.2 !! (m + 5)%nat = Some (WLabel "" true) ∧
  widgets r.2 !! (m + 6)%nat = Some (WLabel "" true) ∧
  widgets r.2 !! (m + 7)%nat = Some (WLabel "" true).
Proof.
  intros r m. subst r. rewrite get_file_labels_listbox_run. cbv zeta.
  cbn [snd widgets].
  pose proof (row_widgets_lookup (widgets g)
                (row_ids (S (length (widgets g))) (pre ++ f :: post))
                pre f post) as Hrow.
  cbv zeta in Hrow. fold m in Hrow.
  split; [rewrite <- (Nat.add_0_r m) at 1; by rewrite Hrow by lia|].
  repeat split; by rewrite Hrow by lia.
Qed.

(** X14: [get_file_labels_listbox] leaves the widgets that exist
    untouched and returns a new list box with one row per entry of
    [files], in their order; each row holds one box with six labels:
    description, the file's path, progress, and the three labels that stay
    hidden until they are shown, checksum, category and error. *)
Theorem listbox_has_one_row_per_file files g :
  let r := get_file_labels_listbox files g in
  (∀ id wd, widgets g !! id = Some wd → widgets r.2 !! id = Some wd) ∧
  ∃ rows,
    widgets r.2 !! r.1 = Some (WListBox rows) ∧
    length rows = length files ∧
    ∀ i file_path,
      files !! i = Some file_path →
      ∃ row vbox description file_label progress checksum category error,
        rows !! i = Some row ∧
        widgets r.2 !! row = Some (WListBoxRow (Some vbox)) ∧
        widgets r.2 !! vbox =
          Some (WBox [description; file_label; progress;
                      checksum; category; error]) ∧
        widgets r.2 !! description = Some (WLabel "" false) ∧
        widgets r.2 !! file_label = Some (WLabel file_path false) ∧
        widgets r.2 !! progress = Some (WLabel "" false) ∧
        widgets r.2 !! checksum = Some (WLabel "" true) ∧
        widgets r.2 !! category = Some (WLabel "" true) ∧
        widgets r.2 !! error = Some (WLabel "" true).
Proof.
  cbv zeta. split.
  - intros id wd Hid. rewrite get_file_labels_listbox_run. cbv zeta.
    cbn [snd widgets]. by apply lookup_app_l_Some.
  - exists (row_ids (S (length (widgets g))) files). split; [|split].
    + rewrite get_file_labels_listbox_run. cbv zeta. cbn [fst snd widgets].
      by apply list_lookup_middle.
    + apply row_ids_length.
    + intros i file_path Hi.
      pose proof (lookup_lt_Some _ _ _ Hi) as Hlt.
      pose proof (take_drop_middle _ _ _ Hi) as Hfiles.
      pose proof (row_tree g (take i files) file_path (drop (S i) files))
        as Htree.
      rewrite Hfiles in Htree. cbv zeta in Htree.
      rewrite length_take_le in Htree by lia.
      eexists _, _, _, _, _, _, _, _.
      split; [by apply row_ids_lookup|]. exact Htree.
Qed.

(** X15: after [get_file_labels_listbox] each of the five dicts has a
    label for a path exactly when the path is one of the files or was in
    the dict before; so in a new dialog the keys of each dict are the
    files, and looking a file of the batch up never fails. *)
Theorem label_dicts_cover_files files g f :
  let r := get_file_labels_listbox files g in
  (is_Some (progress_labels r.2 !! f) ↔
     f ∈ files ∨ is_Some (progress_labels g !! f)) ∧
  (is_Some (checksum_labels r.2 !! f) ↔
     f ∈ files ∨ is_Some (checksum_labels g !! f)) ∧
  (is_Some (description_labels r.2 !! f) ↔
     f ∈ files ∨ is_Some (description_labels g !! f)) ∧
  (is_Some (category_labels r.2 !! f) ↔
     f ∈ files ∨ is_Some (category_labels g !! f)) ∧
  (is_Some (error_labels r.2 !! f) ↔
     f ∈ files ∨ is_Some (error_labels g !! f)).
Proof.
  cbv zeta. rewrite get_file_labels_listbox_run. cbv zeta.
  cbn [snd progress_labels checksum_labels description_labels
       category_labels error_labels].
  repeat split; by apply label_dict_is_Some.
Qed.

(** X16: when a path occurs several times among the files, every
    occurrence gets its own row, and the dicts lead from the path to the
    labels of the row of its last occurrence: the labels of the earlier
    rows are never reached through the dicts. *)
Theorem dicts_lead_to_last_row pre file_path post g :
  file_path ∉ post →
  let r := get_file_labels_listbox (pre ++ file_path :: post) g in
  ∃ rows row vbox description file_label progress checksum category error,
    widgets r.2 !! r.1 = Some (WListBox rows) ∧
    rows !! length pre = Some row ∧
    widgets r.2 !! row = Some (WListBoxRow (Some vbox)) ∧
    widgets r.2 !! vbox =
      Some (WBox [description; file_label; progress;
                  checksum; category; error]) ∧
    widgets r.2 !! file_label = Some (WLabel file_path false) ∧
    description_labels r.2 !! file_path = Some description ∧
    progress_labels r.2 !! file_path = Some progress ∧
    checksum_labels r.2 !! file_path = Some checksum ∧
    category_labels r.2 !! file_path = Some category ∧
    error_labels r.2 !! file_path = Some error.
Proof.
  intros Hpost. cbv zeta.
  pose proof (row_tree g pre file_path post) as Htree. cbv zeta in Htree.
  destruct Htree as (Hrow & Hbox & _ & Hfile & _).
  set (m := (S (length (widgets g)) + 8 * length pre)%nat) in *.
  exists (row_ids (S (length (widgets g))) (pre ++ file_path :: post)), m.
  eexists _, _, _, _, _, _, _.
  split; [|split; [|split; [exact Hrow|split; [exact Hbox|split; [exact Hfile|]]]]].
  - rewrite get_file_labels_listbox_run. cbv zeta. cbn [fst snd widgets].
    by apply list_lookup_middle.
  - apply row_ids_lookup. rewrite length_app. simpl. lia.
  - rewrite get_file_labels_listbox_run. cbv zeta.
    cbn [snd progress_labels checksum_labels description_labels
         category_labels error_labels].
    by rewrite !label_dict_last by done.
Qed.

(** ** The labels a run touches *)

Section Labels.

Context (ext : Externals).

Lemma add_game_persists rom_set filepath w :
  grows persist_event w (add_game ext rom_set filepath w).2.
Proof.
  destruct (platform w) as [p|] eqn:Hp.
  - destruct (template ext (heap w) p) as [[runner items]|] eqn:Ht.
    + rewrite (add_game_run ext rom_set filepath w p runner items Hp Ht).
      cbv zeta.
      destruct (write_game_config ext _ runner _) as [configpath|ex];
        [|cbn [snd]; grows_tac].
      destruct (db_add_game ext (games_db w) _) as [id|ex];
        [|cbn [snd]; grows_tac].
      destruct (download_lutris_media ext _) as [[]|ex]; cbn [snd]; grows_tac.
    + destruct (add_game_no_template ext rom_set filepath w)
        as (ex & objs & ->).
      { intros p' Hp'. congruence. }
      cbn [snd]. grows_tac.
  - destruct (add_game_no_template ext rom_set filepath w) as (ex & objs & ->).
    { intros p' Hp'. congruence. }
    cbn [snd]. grows_tac.
Qed.

Lemma persist_about filename ev : persist_event ev → about filename ev.
Proof. by destruct ev. Qed.

Lemma import_rom_about rom_set filename launch_game w :
  grows (about filename) w (import_rom ext rom_set filename launch_game w).2.
Proof.
  destruct (rs_error rom_set) as [error|] eqn:He.
  { unfold import_rom, try_except. rewrite He. mrun. unfold mret, M_ret, emit.
    cbn [snd]. grows_tac. }
  destruct (rs_roms rom_set) as [|rom roms] eqn:Hr.
  { unfold import_rom, try_except. rewrite He, Hr. mrun. cbn [snd]. grows_tac. }
  destruct (guess_platform ext rom_set) as [p|] eqn:Hg.
  2:{ unfold import_rom, try_except, display_game_info.
      rewrite He, Hr. mrun. rewrite Hg. mrun. unfold mret, M_ret, emit.
      cbn [snd]. grows_tac. }
  rewrite (import_rom_known_platform ext _ _ _ _ _ _ _ He Hr Hg).
  match goal with
  | |- context [add_game ext rom_set filename ?W] => set (w0 := W)
  end.
  assert (grows (about filename) w w0) as Hw0
    by (subst w0; unfold label_events; grows_tac).
  pose proof (grows_mono _ (about filename) _ _ (persist_about filename)
                (add_game_persists rom_set filename w0)) as Hw1.
  destruct (add_game ext rom_set filename w0) as [[id|ex] w1]; cbn [snd] in *.
  - eapply grows_trans; [exact Hw0|]. eapply grows_trans; [exact Hw1|].
    apply grows_log. unfold imported_events.
    destruct launch_game; by repeat constructor.
  - eapply grows_trans; [exact Hw0|]. eapply grows_trans; [exact Hw1|].
    apply grows_log. by repeat constructor.
Qed.


Lemma about_within filename files ev :
  filename ∈ files → about filename ev → within files ev.
Proof.
  unfold about, within. destruct (event_file ev); [|done]. by intros ? ->.
Qed.

Lemma within_mono files files' ev :
  (∀ f, f ∈ files → f ∈ files') → within files ev → within files' ev.
Proof. unfold within. destruct (event_file ev); [|done]. auto. Qed.

Lemma import_result_about filename result launch_game w :
  grows (about filename) w
    (import_result ext filename result launch_game w).2.
Proof.
  revert w. induction result as [|rom_set rest IH]; intros w.
  - apply grows_refl.
  - cbn [import_result]. rewrite run_bind.
    pose proof (import_rom_about rom_set filename launch_game w) as Hg.
    destruct (import_rom ext rom_set filename launch_game w)
      as [[[|]|ex] w1]; cbn [snd] in *; [done| |done].
    eapply grows_trans; [exact Hg|apply IH].
Qed.

Lemma import_results_within results launch_game w :
  grows (within results.*1) w (import_results ext results launch_game w).2.
Proof.
  revert w. induction results as [|[filename result] rest IH]; intros w.
  - apply grows_refl.
  - cbn [import_results]. rewrite run_bind.
    pose proof (import_result_about filename result launch_game w) as Hg.
    apply (grows_mono _ (within ((filename, result) :: rest).*1)) in Hg.
    2:{ intros ev. apply about_within. left. }
    assert (∀ w1, grows (within ((filename, result) :: rest).*1) w1
                    (import_results ext rest launch_game w1).2) as Hrest.
    { intros w1. eapply grows_mono; [|apply IH].
      intros ev. apply within_mono. intros f Hf. by right. }
    destruct (import_result ext filename result launch_game w)
      as [[[|]|ex] w1]; cbn [snd] in *.
    + destruct launch_game; [done|].
      eapply grows_trans; [exact Hg|apply Hrest].
    + eapply grows_trans; [exact Hg|apply Hrest].
    + done.
Qed.

Lemma search_result_finished_within results w :
  grows (within results.*1) w
    (search_result_finished ext results None w).2.
Proof.
  unfold search_result_finished. rewrite run_bind. mred.
  destruct (auto_launch_button w).
  - destruct (find_installed results) as [game|].
    + unfold game_launch. mrun. unfold emit. cbn [snd]. grows_tac.
    + apply import_results_within.
  - apply import_results_within.
Qed.

Lemma search_trace_within files files' :
  (∀ f, f ∈ files' → f ∈ files) →
  Forall (within files) (search_trace ext files').
Proof.
  unfold search_trace. induction files' as [|file rest IH]; intros Hsub.
  - constructor.
  - cbn [map concat]. apply Forall_app. split.
    + eapply Forall_impl; [apply outcome_search_events|].
      intros ev Hev. apply (about_within file); [apply Hsub; left|].
      unfold about. by destruct ev.
    + apply IH. intros f Hf. apply Hsub. by right.
Qed.

(** X17: every label a run of the dialog touches, from the first
    progress message of the search to the last error label of the import,
    is a label of a file of the batch; with the dicts
    [get_file_labels_listbox] built for that batch none of these lookups
    fails. *)
Theorem run_touches_labels_of_batch files g w :
  let gui := (get_file_labels_listbox files g).2 in
  ∃ evs,
    trace (start ext files w).2 = trace w ++ evs ∧
    Forall (within files) evs ∧
    Forall (has_label gui) evs.
Proof.
  cbv zeta. rewrite start_outcome.
  pose proof (search_result_finished_within (search_results ext files)
                (log (search_trace ext files) w)) as Hg.
  destruct Hg as (_ & _ & _ & evs & Htr & Hev).
  assert (Forall (within files) (search_trace ext files ++ evs)) as Hall.
  { apply Forall_app. split; [by apply search_trace_within|].
    eapply Forall_impl; [exact Hev|]. intros ev. apply within_mono.
    intros f Hf. apply (elem_of_first_seen files).
    unfold search_results in Hf.
    rewrite (foldl_od_set_keys (λ filename, (outcome ext filename).1)) in Hf.
    cbn [fmap list_fmap app] in Hf.
    by apply list_elem_of_filter in Hf as [_ Hf]. }
  exists (search_trace ext files ++ evs).
  split; [rewrite Htr; mred; by rewrite <- app_assoc|]. split; [done|].
  eapply Forall_impl; [exact Hall|]. intros ev.
  rewrite get_file_labels_listbox_run. cbv zeta.
  unfold within, has_label.
  destruct ev; cbn [event_file snd progress_labels checksum_labels
                    description_labels category_labels error_labels];
    try done; intros Hin; apply label_dict_is_Some; by left.
Qed.

End Labels.

(** ** Launching and closing *)

Section Closing.

Context (ext : Externals).

Lemma working_no_launch ev : working_event ev → no_launch ev.
Proof. destruct ev; try done; intros _; by split. Qed.

Lemma no_signal_no_launch ev : no_signal ev → no_launch ev.
Proof. intros [Hd He]. split; [done|]. intros game. apply He. Qed.

Lemma import_result_launches filename result w w' :
  import_result ext filename result true w = (Ok true, w') →
  ∃ evs game,
    trace w' = trace w ++ evs ++ [EvEmit game "game-launch"; EvDestroy] ∧
    Forall no_launch evs.
Proof.
  revert w. induction result as [|rom_set rest IH]; intros w; [done|].
  cbn [import_result]. rewrite run_bind.
  destruct (import_rom_summary ext rom_set filename true w)
    as (w1 & _ & [Hok|[Hfail|Hnone]]).
  - destruct Hok as (-> & _ & _ & id & row & evs & _ & Htr & Hwork). mred.
    intros [= <-].
    exists (evs ++ [EvEmit (load_game ext id) "game-installed";
                    EvEmit (load_game ext id) "game-updated"]),
           (load_game ext id).
    split; [rewrite Htr; unfold imported_events; by rewrite <- !app_assoc|].
    apply Forall_app. split.
    + eapply Forall_impl; [done|]. apply working_no_launch.
    + repeat constructor; done.
  - destruct Hfail as (-> & ex & evs & Htr & Hwork). mred.
    intros (evs' & game & Htr' & Hno)%IH.
    exists (evs ++ failure_events filename ex ++ evs'), game.
    split; [by rewrite Htr', Htr, <- !app_assoc|].
    apply Forall_app. split.
    { eapply Forall_impl; [done|]. apply working_no_launch. }
    apply Forall_app. split; [|done]. repeat constructor; done.
  - destruct Hnone as (-> & _ & _ & ->). mred.
    intros (evs' & game & Htr' & Hno)%IH.
    exists (EvHideProgress filename :: evs'), game.
    split; [rewrite Htr'; mred; by rewrite <- !app_assoc|].
    constructor; [by split|done].
Qed.

Lemma import_results_close results w :
  ∃ evs,
    trace (import_results ext results true w).2 = trace w ++ evs ∧
    (Forall no_launch evs ∨
     ∃ evs' game,
       evs = evs' ++ [EvEmit game "game-launch"; EvDestroy] ∧
       Forall no_launch evs').
Proof.
  revert w. induction results as [|[filename result] rest IH]; intros w.
  - exists []. split; [by rewrite app_nil_r|]. left. constructor.
  - cbn [import_results]. rewrite run_bind.
    destruct (import_result_summary ext filename result true w)
      as (b & w1 & Hrun & _). rewrite Hrun. destruct b; mred.
    + apply import_result_launches in Hrun as (evs & game & Htr & Hno).
      exists (evs ++ [EvEmit game "game-launch"; EvDestroy]).
      split; [done|]. right. by exists evs, game.
    + apply import_result_false in Hrun as (evs1 & Htr1 & Hsig).
      destruct (IH w1) as (evs2 & Htr2 & Hclose).
      exists (evs1 ++ evs2). split; [by rewrite Htr2, Htr1, <- app_assoc|].
      assert (Forall no_launch evs1) as Hno1.
      { eapply Forall_impl; [done|]. apply no_signal_no_launch. }
      destruct Hclose as [Hno2|(evs' & game & -> & Hno')].
      * left. by apply Forall_app.
      * right. exists (evs1 ++ evs'), game.
        split; [by rewrite <- app_assoc|]. by apply Forall_app.
Qed.

Lemma import_event_false_no_launch ev : import_event false ev → no_launch ev.
Proof.
  destruct ev; try done; intros Hev; split; try done.
  intros game' [= <- ->]. by destruct Hev as [?|[?|[? _]]].
Qed.

Lemma search_trace_no_launch files :
  Forall no_launch (search_trace ext files).
Proof.
  apply search_trace_Forall. intros file.
  eapply Forall_impl; [apply outcome_search_events|].
  intros ev Hev. destruct ev; try done; by split.
Qed.

(** X18: a run launches at most one game, and when it does, the launch
    and the closing of the dialog are the last two things it does: nothing
    is searched, shown, written or announced after the dialog is
    destroyed. *)
Theorem dialog_closes_last files w :
  ∃ evs,
    trace (start ext files w).2 = trace w ++ evs ∧
    (Forall no_launch evs ∨
     ∃ evs' game,
       evs = evs' ++ [EvEmit game "game-launch"; EvDestroy] ∧
       Forall no_launch evs').
Proof.
  rewrite start_outcome. unfold search_result_finished. rewrite run_bind.
  mred. pose proof (search_trace_no_launch files) as Hsearch.
  destruct (auto_launch_button w).
  - destruct (find_installed (search_results ext files)) as [game|].
    + unfold game_launch. mrun. unfold emit. cbn [snd]. mred.
      exists (search_trace ext files ++ [EvEmit game "game-launch"; EvDestroy]).
      split; [by rewrite <- !app_assoc|]. right. by eexists _, _.
    + destruct (import_results_close (search_results ext files)
                  (log (search_trace ext files) w)) as (evs & Htr & Hclose).
      exists (search_trace ext files ++ evs).
      split; [rewrite Htr; mred; by rewrite <- app_assoc|].
      destruct Hclose as [Hno|(evs' & game & -> & Hno)].
      * left. by apply Forall_app.
      * right. exists (search_trace ext files ++ evs'), game.
        split; [by rewrite <- app_assoc|]. by apply Forall_app.
  - destruct (import_results_summary ext (search_results ext files) false
                (log (search_trace ext files) w))
      as (w' & -> & _ & _ & _ & evs & Htr & Hev).
    exists (search_trace ext files ++ evs).
    split; [cbn [snd]; rewrite Htr; mred; by rewrite <- app_assoc|].
    left. apply Forall_app. split; [done|].
    eapply Forall_impl; [done|]. apply import_event_false_no_launch.
Qed.

End Closing.

(** ** The first import ends the batch *)

Section Batch.

Context (ext : Externals).








End Batch.


(** ** The further properties on the sample library *)

Lemma checksum_failure_skips_lookup_witness :
  ("/roms/locked.bin" ∉ (get_path_cache locked_file).*2) ∧
  checksum locked_file "/roms/locked.bin" =
    Raise (OtherError "Permission denied") ∧
  search_file locked_file (get_path_cache locked_file) "/roms/locked.bin"
    (sample_world false) =
    (Ok [error_rom_set (OtherError "Permission denied")],
     log [EvProgress "/roms/locked.bin" "Looking for installed game...";
          EvProgress "/roms/locked.bin" "Calculating checksum...";
          checksum_event "/roms/locked.bin";
          EvProgress "/roms/locked.bin" ""] (sample_world false)).
Proof.
  split; [compute_done|]. split; [reflexivity|].
  apply (checksum_failure_skips_lookup locked_file "/roms/locked.bin"
           (OtherError "Permission denied") (sample_world false));
    [compute_done|reflexivity].
Defined.

Lemma last_cached_game_wins_witness :
  get_path_cache two_sonics =
    [(7, "/roms/sonic.md"); (3, "/roms/doom.wad")] ++
    (9, "/roms/sonic.md") :: [] ∧
  ("/roms/sonic.md" ∉ ([] : list (Z * string)).*2) ∧
  search_file two_sonics (get_path_cache two_sonics) "/roms/sonic.md"
    (sample_world true) =
    (Ok [installed_rom_set (load_game two_sonics 9)],
     log [EvProgress "/roms/sonic.md" "Looking for installed game...";
          EvProgress "/roms/sonic.md" ""] (sample_world true)).
Proof.
  split; [reflexivity|]. split; [compute_done|].
  apply (last_cached_game_wins two_sonics
           [(7, "/roms/sonic.md"); (3, "/roms/doom.wad")] 9 "/roms/sonic.md"
           [] (sample_world true));
    [reflexivity|compute_done].
Defined.

Lemma zip_extension_selects_checksum_witness :
  ("/roms/metroid.ZIP" ∉ (get_path_cache online).*2) ∧
  ∃ result evs,
    Forall (λ ev, ¬ hashes "/roms/metroid.ZIP" ev) evs ∧
    ((named_zip "/roms/metroid.ZIP" ∧
      search_file online (get_path_cache online) "/roms/metroid.ZIP"
        (sample_world false) =
        (Ok result,
         log ([EvProgress "/roms/metroid.ZIP" "Looking for installed game...";
               EvProgress "/roms/metroid.ZIP" "Calculating checksum...";
               EvMd5InZip "/roms/metroid.ZIP"] ++ evs) (sample_world false))) ∨
     (¬ named_zip "/roms/metroid.ZIP" ∧
      search_file online (get_path_cache online) "/roms/metroid.ZIP"
        (sample_world false) =
        (Ok result,
         log ([EvProgress "/roms/metroid.ZIP" "Looking for installed game...";
               EvProgress "/roms/metroid.ZIP" "Calculating checksum...";
               EvMd5Hash "/roms/metroid.ZIP"] ++ evs) (sample_world false)))).
Proof.
  split; [compute_done|].
  apply (zip_extension_selects_checksum online "/roms/metroid.ZIP"
           (sample_world false)).
  compute_done.
Defined.

Lemma missing_installer_fails_witness :
  rs_error pong = None ∧
  rs_roms pong = [{| md5 := "md5:/roms/pong.bin" |}] ∧
  guess_platform odyssey_known pong = Some "odyssey" ∧
  DEFAULT_INSTALLERS odyssey_known !! "odyssey" = None ∧
  import_rom odyssey_known pong "/roms/pong.bin" false (sample_world false) =
    (Ok false,
     with_platform (Some "odyssey")
       (log (label_events "/roms/pong.bin" pong
               {| md5 := "md5:/roms/pong.bin" |} ++
             [EvLogInfo ("Installing " +:+
                         clean_rom_name odyssey_known (rs_name pong));
              EvInstallerLookup (Some "odyssey")] ++
             failure_events "/roms/pong.bin" (no_installer "odyssey"))
          (sample_world false))).
Proof.
  split; [reflexivity|]. split; [reflexivity|]. split; [reflexivity|].
  split; [reflexivity|].
  apply (missing_installer_fails odyssey_known pong "/roms/pong.bin" false
           (sample_world false) {| md5 := "md5:/roms/pong.bin" |} []
           "odyssey"); reflexivity.
Defined.

Lemma config_write_failure_witness :
  let ex := OtherError "Read-only file system" in
  let slug := slugify read_only_disk
                (clean_rom_name read_only_disk (rs_name mario)) in
  rs_error mario = None ∧
  rs_roms mario = [{| md5 := "md5:/roms/mario.nes" |}] ∧
  guess_platform read_only_disk mario = Some "nes" ∧
  template read_only_disk (heap (sample_world false)) "nes" =
    Some ("libretro", nes_section) ∧
  write_game_config read_only_disk slug "libretro"
    (filled "/roms/mario.nes" nes_section) = Raise ex ∧
  let r := import_rom read_only_disk mario "/roms/mario.nes" false
             (sample_world false) in
  r.1 = Ok false ∧
  games_db r.2 = games_db (sample_world false) ∧
  trace r.2 =
    trace (sample_world false) ++
    label_events "/roms/mario.nes" mario {| md5 := "md5:/roms/mario.nes" |} ++
    [EvLogInfo ("Installing " +:+
                clean_rom_name read_only_disk (rs_name mario));
     EvInstallerLookup (Some "nes");
     EvWriteConfig slug "libretro" (filled "/roms/mario.nes" nes_section)] ++
    failure_events "/roms/mario.nes" ex.
Proof.
  cbv zeta. split; [reflexivity|]. split; [reflexivity|].
  split; [reflexivity|]. split; [vm_compute; reflexivity|].
  split; [reflexivity|].
  apply (config_write_failure read_only_disk mario "/roms/mario.nes" false
           (sample_world false) {| md5 := "md5:/roms/mario.nes" |} [] "nes"
           "libretro" nes_section (OtherError "Read-only file system"));
    first [reflexivity | vm_compute; reflexivity].
Defined.

Lemma database_insert_failure_witness :
  let ex := OtherError "database is locked" in
  let slug := slugify database_locked
                (clean_rom_name database_locked (rs_name mario)) in
  let row := new_row database_locked mario "libretro"
               "/config/mario bros. (world).yml" in
  rs_error mario = None ∧
  rs_roms mario = [{| md5 := "md5:/roms/mario.nes" |}] ∧
  guess_platform database_locked mario = Some "nes" ∧
  template database_locked (heap (sample_world false)) "nes" =
    Some ("libretro", nes_section) ∧
  write_game_config database_locked slug "libretro"
    (filled "/roms/mario.nes" nes_section) =
    Ok "/config/mario bros. (world).yml" ∧
  db_add_game database_locked (games_db (sample_world false)) row =
    Raise ex ∧
  let r := import_rom database_locked mario "/roms/mario.nes" false
             (sample_world false) in
  r.1 = Ok false ∧
  games_db r.2 = games_db (sample_world false) ∧
  trace r.2 =
    trace (sample_world false) ++
    label_events "/roms/mario.nes" mario {| md5 := "md5:/roms/mario.nes" |} ++
    [EvLogInfo ("Installing " +:+
                clean_rom_name database_locked (rs_name mario));
     EvInstallerLookup (Some "nes");
     EvWriteConfig slug "libretro" (filled "/roms/mario.nes" nes_section);
     EvAddGame row] ++
    failure_events "/roms/mario.nes" ex.
Proof.
  cbv zeta. split; [reflexivity|]. split; [reflexivity|].
  split; [reflexivity|]. split; [vm_compute; reflexivity|].
  split; [vm_compute; reflexivity|]. split; [reflexivity|].
  apply (database_insert_failure database_locked mario "/roms/mario.nes"
           false (sample_world false) {| md5 := "md5:/roms/mario.nes" |} []
           "nes" "libretro" nes_section "/config/mario bros. (world).yml"
           (OtherError "database is locked"));
    first [reflexivity | vm_compute; reflexivity].
Defined.

Lemma same_candidate_twice_two_rows_witness :
  let w := sample_world false in
  let w1 := (import_rom online mario "/roms/mario.nes" false w).2 in
  let w2 := (import_rom online mario "/roms/mario.nes" false w1).2 in
  import_rom online mario "/roms/mario.nes" false w = (Ok true, w1) ∧
  import_rom online mario "/roms/mario.nes" false w1 = (Ok true, w2) ∧
  ∃ row1 row2,
    games_db w2 = games_db w ++ [row1; row2] ∧
    gr_name row1 = clean_rom_name online (rs_name mario) ∧
    gr_name row2 = gr_name row1 ∧
    gr_slug row2 = gr_slug row1.
Proof.
  cbv zeta. split; [vm_compute; reflexivity|].
  split; [vm_compute; reflexivity|].
  apply (same_candidate_twice_two_rows online mario "/roms/mario.nes"
           false false (sample_world false)
           (import_rom online mario "/roms/mario.nes" false
              (sample_world false)).2
           (import_rom online mario "/roms/mario.nes" false
              (import_rom online mario "/roms/mario.nes" false
                 (sample_world false)).2).2);
    vm_compute; reflexivity.
Defined.

Lemma platform_not_carried_over_witness :
  rs_error mario = None ∧
  rs_roms mario ≠ [] ∧
  import_rom online mario "/roms/mario.nes" false
    (with_platform (Some "odyssey") (sample_world false)) =
    import_rom online mario "/roms/mario.nes" false (sample_world false).
Proof.
  split; [reflexivity|]. split; [compute_done|].
  apply (platform_not_carried_over online mario "/roms/mario.nes" false
           (sample_world false) (Some "odyssey"));
    [reflexivity|compute_done].
Defined.

Lemma all_failed_dialog_stays_open_witness :
  let w := sample_world true in
  let w' := (import_results online nothing_importable true w).2 in
  auto_launch_button w = true ∧
  find_installed nothing_importable = None ∧
  all_failed online nothing_importable w w' ∧
  search_result_finished online nothing_importable None w = (Ok tt, w') ∧
  ∃ evs, trace w' = trace w ++ evs ∧ Forall no_signal evs.
Proof.
  cbv zeta.
  assert (all_failed online nothing_importable (sample_world true)
            (import_results online nothing_importable true
               (sample_world true)).2) as Hall.
  { eapply all_failed_cons; [vm_compute; reflexivity|].
    eapply all_failed_cons; [vm_compute; reflexivity|].
    match goal with
    | |- all_failed _ _ ?a ?b =>
        replace b with a by (vm_compute; reflexivity)
    end.
    apply all_failed_nil. }
  split; [reflexivity|]. split; [reflexivity|]. split; [exact Hall|].
  apply (all_failed_dialog_stays_open online nothing_importable
           (sample_world true) _); [reflexivity|reflexivity|exact Hall].
Defined.

Lemma dicts_lead_to_last_row_witness :
  let files := ["/roms/mario.nes"; "/roms/zelda.nes"; "/roms/mario.nes"] in
  ("/roms/mario.nes" ∉ ([] : list string)) ∧
  let r := get_file_labels_listbox
             (["/roms/mario.nes"; "/roms/zelda.nes"] ++
              "/roms/mario.nes" :: []) (new_dialog []) in
  ∃ rows row vbox description file_label progress checksum category error,
    widgets r.2 !! r.1 = Some (WListBox rows) ∧
    rows !! length ["/roms/mario.nes"; "/roms/zelda.nes"] = Some row ∧
    widgets r.2 !! row = Some (WListBoxRow (Some vbox)) ∧
    widgets r.2 !! vbox =
      Some (WBox [description; file_label; progress;
                  checksum; category; error]) ∧
    widgets r.2 !! file_label = Some (WLabel "/roms/mario.nes" false) ∧
    description_labels r.2 !! "/roms/mario.nes" = Some description ∧
    progress_labels r.2 !! "/roms/mario.nes" = Some progress ∧
    checksum_labels r.2 !! "/roms/mario.nes" = Some checksum ∧
    category_labels r.2 !! "/roms/mario.nes" = Some category ∧
    error_labels r.2 !! "/roms/mario.nes" = Some error.
Proof.
  cbv zeta. split; [compute_done|].
  apply (dicts_lead_to_last_row ["/roms/mario.nes"; "/roms/zelda.nes"]
           "/roms/mario.nes" [] (new_dialog [])).
  compute_done.
Defined.

(** The dialog built for a path given twice: 17 widgets, and the
    progress label of the path is the one of the second row. *)
Example duplicate_path_widgets :
  let r := get_file_labels_listbox ["/roms/mario.nes"; "/roms/mario.nes"]
             (new_dialog []) in
  r.1 = 0%nat ∧
  length (widgets r.2) = 17%nat ∧
  widgets r.2 !! 0%nat = Some (WListBox [1; 9]%nat) ∧
  progress_labels r.2 !! "/roms/mario.nes" = Some 13%nat ∧
  widgets r.2 !! 10%nat = Some (WBox [11; 12; 13; 14; 15; 16]%nat).
Proof. cbv zeta. repeat split; vm_compute; reflexivity. Qed.

Lemma unticked_never_launches_witness :
  auto_launch_button (sample_world false) = false ∧
  ∃ evs,
    trace (start online ["/roms/sonic.md"; "/roms/mario.nes"]
             (sample_world false)).2 = trace (sample_world false) ++ evs ∧
    (EvDestroy ∉ evs) ∧ (∀ game, EvEmit game "game-launch" ∉ evs).
Proof.
  split; [reflexivity|].
  apply (unticked_never_launches online ["/roms/sonic.md"; "/roms/mario.nes"]
           (sample_world false)).
  reflexivity.
Defined.
